(** * simarduboy: the bridge between the emulation core and the host

    A shallow embedding of [src/main.cpp]: the speaker ring buffer
    ([speaker_hook], [speaker_timer], [audio_callback]), the display
    conversion ([draw_display]), the key dispatch and the two loops of
    [main] and [run_core], and the start-up path of [main].

    Fixed-width C++ integers are [Z] with the wrap-around written out.
    Arrays are lists indexed with stdpp's lookup and insert; an access the
    C++ program leaves undefined (out of the array) makes the embedded
    operation return [None]. *)

From stdpp Require Import base numbers option list strings gmap.
From Stdlib Require Import Zify ZifyNat Ascii.

Local Open Scope Z_scope.

(** [lia] is to reason about division and remainder by constants. *)
Ltac Zify.zify_post_hook ::= Z.to_euclidean_division_equations.

(** ** Fixed-width integers *)

Definition u8 (z : Z) : Z := z mod 2 ^ 8.
Definition u16 (z : Z) : Z := z mod 2 ^ 16.
Definition u64 (z : Z) : Z := z mod 2 ^ 64.

(** ** The speaker ring buffer (main.cpp, lines 58-83) *)

Definition nsamples : Z := 1024.
Definition audio_frequency : Z := 8000.
(** [static avr_cycle_count_t next = 16000000 / audio_frequency;] *)
Definition next : Z := 16000000 `div` audio_frequency.

(** The file-scope variables of the audio path. *)
Record globals : Type := Globals {
  speaker_value : Z;        (* uint8_t *)
  samples : list Z;         (* uint16_t samples[nsamples] *)
  cur_sample : Z;           (* uint16_t *)
  out_sample : Z            (* uint16_t *)
}.

(** Static storage is zero-initialised. *)
Definition globals_init : globals :=
  Globals 0 (replicate (Z.to_nat nsamples) 0) 0 0.

(** Computations over the globals; [None] is undefined behaviour. *)
Definition M (A : Type) : Type := globals -> option (A * globals).

Definition ret {A} (a : A) : M A := fun g => Some (a, g).
Definition bind {A B} (m : M A) (k : A -> M B) : M B :=
  fun g => match m g with
           | Some (a, g') => k a g'
           | None => None
           end.
Definition undefined {A} : M A := fun _ => None.

Notation "'let*' x := m 'in' k" := (bind m (fun x => k))
  (at level 10, x name, m at level 100, k at level 200).
Notation "'run' m 'then' k" := (bind m (fun _ => k))
  (at level 10, m at level 100, k at level 200).

(** [speaker_value = value;] with [value : uint32_t] narrowed to
    [uint8_t]. *)
Definition speaker_hook (value : Z) : M unit :=
  fun g => Some (tt, Globals (u8 value) (samples g) (cur_sample g) (out_sample g)).

(** The product [speaker_value * 0x4000] is computed in [int] and stored
    into a [uint16_t] slot. *)
Definition sample_of (level : Z) : Z := u16 (level * 0x4000).

(** [samples[cur_sample++] = speaker_value * 0x4000;
     cur_sample %= nsamples;
     return when + next;]
    The store is defined only when [cur_sample] indexes the array. *)
Definition speaker_timer (when : Z) : M Z :=
  fun g =>
    let i := cur_sample g in
    if decide (0 <= i < Z.of_nat (length (samples g))) then
      Some (u64 (when + next),
            Globals (speaker_value g)
                    (<[Z.to_nat i := sample_of (speaker_value g)]> (samples g))
                    (u16 (i + 1) mod nsamples)
                    (out_sample g))
    else None.

(** The object representation of the sample array as the host lays it out
    (little-endian, the byte order of SDL's [AUDIO_S16] = [AUDIO_S16LSB]). *)
Definition le16 (v : Z) : list Z := [v mod 256; (v / 256) mod 256].
Definition bytes_of (l : list Z) : list Z := flat_map le16 l.

(** Reading a stream of bytes back as 16-bit samples. *)
Fixpoint samples_of_stream (bs : list Z) : list Z :=
  match bs with
  | lo :: hi :: rest => (lo + 256 * hi) :: samples_of_stream rest
  | _ => []
  end.

(** [memcpy(stream, samples + out_sample, len);
     out_sample += len / sizeof( *samples );
     out_sample %= nsamples;]
    The result is the content of [stream]. The copy is defined only when
    the [len] bytes from [samples + out_sample] lie inside the array. *)
Definition audio_callback (len : Z) : M (list Z) :=
  fun g =>
    let o := out_sample g in
    if decide (0 <= len /\ 0 <= o /\
               2 * o + len <= 2 * Z.of_nat (length (samples g)))%Z then
      Some (take (Z.to_nat len) (drop (Z.to_nat (2 * o)) (bytes_of (samples g))),
            Globals (speaker_value g) (samples g) (cur_sample g)
                    (u16 (o + len / 2) mod nsamples))
    else None.

(** The producer side of one sample: the pin notification sets the level,
    then the cycle timer fires. *)
Definition produce (level : Z) : M unit :=
  run speaker_hook level then
  run speaker_timer 0 then
  ret tt.

Fixpoint produce_all (levels : list Z) : M unit :=
  match levels with
  | [] => ret tt
  | v :: rest => run produce v then produce_all rest
  end.

(** The consumer asked for [count] whole samples: a callback with
    [len = count * sizeof(uint16_t)]. *)
Definition consume (count : Z) : M (list Z) :=
  audio_callback (2 * count).

Fixpoint consume_all (counts : list Z) : M (list Z) :=
  match counts with
  | [] => ret []
  | k :: rest =>
      let* s := consume k in
      let* t := consume_all rest in
      ret (s ++ t)
  end.

(** The samples a sequence of speaker levels appends. *)
Definition produced (levels : list Z) : list Z :=
  map (fun v => sample_of (u8 v)) levels.

Definition sum_counts (counts : list Z) : Z := foldr Z.add 0 counts.

(** The state of the ring after the levels [levels] were appended to the
    initial buffer: the write cursor is the count modulo the capacity and
    each of the newest [nsamples] samples sits in the slot of its index
    modulo the capacity. *)
Definition ring_of (levels : list Z) (g : globals) : Prop :=
  length (samples g) = 1024%nat /\
  cur_sample g = Z.of_nat (length levels) mod 1024 /\
  Forall (fun v => 0 <= v < 65536) (samples g) /\
  forall j : nat,
    (j < length levels)%nat -> (length levels <= j + 1024)%nat ->
    samples g !! (j mod 1024)%nat = produced levels !! j.


(** What the two other contexts do to the globals: the emulation core
    notifies a pin change or fires the cycle timer, the host audio layer
    pulls a block of [len] bytes. *)
Inductive audio_event : Type :=
  | PinChange (value : Z)
  | TimerFires (when : Z)
  | AudioPull (len : Z).

Definition perform (e : audio_event) : M unit :=
  match e with
  | PinChange v => speaker_hook v
  | TimerFires w => run speaker_timer w then ret tt
  | AudioPull len => run audio_callback len then ret tt
  end.

Fixpoint perform_all (es : list audio_event) : M unit :=
  match es with
  | [] => ret tt
  | e :: rest => run perform e then perform_all rest
  end.

(** The block the audio device was opened with: [want.samples = nsamples]
    frames of [want.channels = 1] samples of [AUDIO_S16], i.e. two bytes. *)
Definition want_channels : Z := 1.
Definition block_len : Z := nsamples * want_channels * 2.

Definition fixed_block (e : audio_event) : Prop :=
  match e with
  | AudioPull len => len = block_len
  | _ => True
  end.

(** The state the globals keep while every pull has the configured block
    length: the array has its declared extent, the write cursor indexes
    it, the read cursor is at its start. *)
Definition block_aligned (g : globals) : Prop :=
  length (samples g) = 1024%nat /\
  0 <= cur_sample g < 1024 /\
  out_sample g = 0.

(** ** The cycle timer that drives [speaker_timer] (main.cpp, line 122) *)

(** Both firmware loading paths of [main] set the core to 16 MHz. *)
Definition cpu_frequency : Z := 16000000.

(** Modelled from the spec: the emulation core's conversion of the
    microseconds given to [avr_cycle_timer_register_usec] into cycles of
    virtual time; the core is an external collaborator and is not part of
    the source. *)
Definition avr_usec_to_cycles (usec : Z) : Z :=
  cpu_frequency * usec / 1000000.

(** [avr_cycle_timer_register_usec(avr, 125, speaker_timer, nullptr)],
    issued at cycle 0: the deadline of the first call. *)
Definition first_deadline : Z := avr_usec_to_cycles 125.

(** The virtual clock and the one registered timer: the cycle counter, the
    pending deadline, and the number of timer calls made so far. *)
Record clock : Type := Clock { cycle : Z; deadline : Z; fired : Z }.

Definition clock_init : clock := Clock 0 first_deadline 0.

(** Modelled from the spec: the emulation core's cycle-scheduled callback
    ("fire after N virtual cycles, callback returns the next deadline").
    While the pending deadline is not after the current cycle the callback
    is called with that deadline and what it returns is the new deadline.
    [fuel] bounds the number of calls; running out of it is [None]. *)
Fixpoint fire_due (fuel : nat) (c : clock) : M clock :=
  if decide (deadline c <= cycle c) then
    match fuel with
    | O => undefined
    | S fuel' =>
        let* when := speaker_timer (deadline c) in
        fire_due fuel' (Clock (cycle c) when (fired c + 1))
    end
  else ret c.

(** An emulated instruction: the value it makes the speaker pins notify,
    if it writes them, and the cycles of virtual time it takes. *)
Record instruction : Type := Instr { pin_write : option Z; cycles : Z }.

(** Modelled from the spec: the emulation runs instruction by instruction.
    An instruction notifies its pin change ("notify on pin-level change"),
    takes its cycles of virtual time, and the due timers fire after it. *)
Fixpoint emulate (fuel : nat) (steps : list instruction) (c : clock) : M clock :=
  match steps with
  | [] => ret c
  | i :: rest =>
      run (match pin_write i with
           | Some value => speaker_hook value
           | None => ret tt
           end) then
      let* c' := fire_due fuel
                   (Clock (cycle c + cycles i) (deadline c) (fired c)) in
      emulate fuel rest c'
  end.

(** The virtual time a list of instructions takes. *)
Definition total_cycles (steps : list instruction) : Z :=
  sum_counts (map cycles steps).

(** The values held on the speaker level at the timer deadlines the
    instructions pass, one per deadline and in order: an instruction that
    takes the clock from [at_cycle] to [at_cycle + cycles] passes the
    multiples of the period in between, and the level at each of them is
    the one the instruction left. [value] is what was notified last before
    the instructions. *)
Fixpoint held_values (value at_cycle : Z) (steps : list instruction) : list Z :=
  match steps with
  | [] => []
  | i :: rest =>
      let value' := match pin_write i with
                    | Some x => x
                    | None => value
                    end in
      replicate (Z.to_nat ((at_cycle + cycles i) / next - at_cycle / next))
                value'
      ++ held_values value' (at_cycle + cycles i) rest
  end.

(** ** The display conversion (main.cpp, lines 42-56) *)

(** Modelled from the spec: the part of [ssd1306_t] that [draw_display]
    reads. The type is declared in [ssd1306_virt.h], which is not part of
    the source; its video memory [vram] is eight pages of 128 column bytes,
    each byte holding eight vertically stacked pixels. *)
Record ssd1306_t : Type := Ssd1306 { vram : list (list Z) }.

Definition display_ok (display : ssd1306_t) : Prop :=
  length (vram display) = 8%nat /\
  Forall (fun page => length page = 128%nat) (vram display).

(** [display.vram[page][column]]; [None] outside of the array. *)
Definition vram_read (display : ssd1306_t) (page column : Z) : option Z :=
  if decide (0 <= page /\ 0 <= column) then
    match vram display !! Z.to_nat page with
    | Some bytes => bytes !! Z.to_nat column
    | None => None
    end
  else None.

Definition white : Z := 0xffffff.
Definition black : Z := 0.

(** [for (int i = start; i < start + n; i++) body] over a state. *)
Fixpoint for_loop {S : Type} (n : nat) (i : Z)
    (body : Z -> S -> option S) (s : S) : option S :=
  match n with
  | O => Some s
  | Datatypes.S n' =>
      match body i s with
      | Some s' => for_loop n' (i + 1) body s'
      | None => None
      end
  end.

(** [*p++ = (display.vram[y / 8][x] >> (y & 7)) & 1 ? 0xffffff : 0;]
    The pixels written so far are the state; [p] is their count. *)
Definition put_pixel (display : ssd1306_t) (y x : Z) (pixels : list Z)
    : option (list Z) :=
  match vram_read display (Z.quot y 8) x with
  | Some byte =>
      Some (pixels ++
            [if decide (Z.land (Z.shiftr byte (Z.land y 7)) 1 <> 0)
             then white else black])
  | None => None
  end.

(** The content of [pixels] handed to [SDL_UpdateTexture] with a pitch of
    128 pixels: pixel (x, y) is at index [y * 128 + x]. *)
Definition draw_display (display : ssd1306_t) : option (list Z) :=
  for_loop 64 0 (fun y => for_loop 128 0 (put_pixel display y)) [].

Definition pixel (frame : list Z) (x y : Z) : option Z :=
  frame !! Z.to_nat (y * 128 + x).

(** The frame buffer whose only set bit is bit 0 of page 0, column 0. *)
Definition one_dot : ssd1306_t :=
  Ssd1306 ((1 :: replicate 127 0) :: replicate 7 (replicate 128 0)).

(** The colour of pixel (x, y) read off the frame buffer: white when bit
    [y mod 8] of the byte at page [y / 8], column [x] is set. *)
Definition colour_at (display : ssd1306_t) (x y : Z) : Z :=
  match vram_read display (y / 8) x with
  | Some byte => if Z.testbit byte (y mod 8) then white else black
  | None => black
  end.

(** ** The event loop of [main] (lines 164-228) and [run_core] (lines 36-40) *)

Inductive Button : Type :=
  | BUTTON_UP | BUTTON_DOWN | BUTTON_LEFT | BUTTON_RIGHT | BUTTON_A | BUTTON_B.

(** The values SDL 2 gives the event types and scancodes the loop tests. *)
Definition SDL_QUIT : Z := 0x100.
Definition SDL_KEYDOWN : Z := 0x300.
Definition SDL_KEYUP : Z := 0x301.
Definition SDL_SCANCODE_A : Z := 4.
Definition SDL_SCANCODE_S : Z := 22.
Definition SDL_SCANCODE_RIGHT : Z := 79.
Definition SDL_SCANCODE_LEFT : Z := 80.
Definition SDL_SCANCODE_DOWN : Z := 81.
Definition SDL_SCANCODE_UP : Z := 82.

(** [event.type] and [event.key.keysym.scancode]. *)
Record SDL_Event : Type := Event { type : Z; scancode : Z }.

(** An input pin of the core: the letter of its port and its bit. *)
Definition pin : Type := ascii * Z.

(** [avr_connect_irq(irq[BUTTON_UP],
       avr_io_getirq(avr, AVR_IOCTL_IOPORT_GETIRQ('F'), 7));] and so on. *)
Definition wiring (b : Button) : pin :=
  match b with
  | BUTTON_UP => ("F"%char, 7)
  | BUTTON_DOWN => ("F"%char, 4)
  | BUTTON_LEFT => ("F"%char, 5)
  | BUTTON_RIGHT => ("F"%char, 6)
  | BUTTON_A => ("E"%char, 6)
  | BUTTON_B => ("B"%char, 4)
  end.

Inductive core_pc : Type :=
  | CoreTest        (* at [while(running)] of [run_core] *)
  | CoreStep        (* inside [avr_run(avr)] *)
  | CoreExited.     (* [run_core] returned *)

Inductive main_pc : Type :=
  | MainTest        (* at [while(running)] of [main] *)
  | MainPoll        (* at [while (SDL_PollEvent(&event))] *)
  | MainDraw        (* at [draw_display(display, texture, renderer)] *)
  | MainJoin        (* at [core_thread.join()] *)
  | MainExited.     (* [main] returned *)

(** What the two loops share and what they do, with counters of the calls
    they completed. *)
Record world : Type := World {
  running : bool;             (* [static bool running] *)
  pins : gmap pin Z;          (* the levels raised on the input pins *)
  queue : list SDL_Event;     (* what [SDL_PollEvent] has yet to return *)
  frames : nat;               (* completed calls of [draw_display] *)
  avr_runs : nat;             (* completed calls of [avr_run] *)
  checks : nat;               (* evaluations of [running] in [run_core] *)
  core_at : core_pc;
  main_at : main_pc
}.

Definition set_running (b : bool) (w : world) : world :=
  World b (pins w) (queue w) (frames w) (avr_runs w) (checks w)
        (core_at w) (main_at w).
Definition set_pins (p : gmap pin Z) (w : world) : world :=
  World (running w) p (queue w) (frames w) (avr_runs w) (checks w)
        (core_at w) (main_at w).
Definition set_queue (q : list SDL_Event) (w : world) : world :=
  World (running w) (pins w) q (frames w) (avr_runs w) (checks w)
        (core_at w) (main_at w).
Definition set_main (pc : main_pc) (w : world) : world :=
  World (running w) (pins w) (queue w) (frames w) (avr_runs w) (checks w)
        (core_at w) pc.
Definition set_core (pc : core_pc) (w : world) : world :=
  World (running w) (pins w) (queue w) (frames w) (avr_runs w) (checks w)
        pc (main_at w).
Definition count_frame (w : world) : world :=
  World (running w) (pins w) (queue w) (S (frames w)) (avr_runs w) (checks w)
        (core_at w) (main_at w).
Definition count_avr_run (w : world) : world :=
  World (running w) (pins w) (queue w) (frames w) (S (avr_runs w)) (checks w)
        (core_at w) (main_at w).
Definition count_check (w : world) : world :=
  World (running w) (pins w) (queue w) (frames w) (avr_runs w) (S (checks w))
        (core_at w) (main_at w).

(** Modelled from the spec: the emulation core's injectable input-pin
    interface ("raise a named port+bit to level 0/1"). Raising the irq of
    a button sets the level of the pin the irq is connected to. *)
Definition avr_raise_irq (b : Button) (value : Z) (w : world) : world :=
  set_pins (<[wiring b := value]> (pins w)) w.

(** The body of [switch(event.type)], lines 189-222. *)
Definition dispatch (event : SDL_Event) (w : world) : world :=
  if decide (type event = SDL_QUIT) then set_running false w
  else if decide (type event = SDL_KEYDOWN \/ type event = SDL_KEYUP) then
    let value := if decide (type event = SDL_KEYDOWN) then 0 else 1 in
    if decide (scancode event = SDL_SCANCODE_UP) then
      avr_raise_irq BUTTON_UP value w
    else if decide (scancode event = SDL_SCANCODE_DOWN) then
      avr_raise_irq BUTTON_DOWN value w
    else if decide (scancode event = SDL_SCANCODE_LEFT) then
      avr_raise_irq BUTTON_LEFT value w
    else if decide (scancode event = SDL_SCANCODE_RIGHT) then
      avr_raise_irq BUTTON_RIGHT value w
    else if decide (scancode event = SDL_SCANCODE_A) then
      avr_raise_irq BUTTON_A value w
    else if decide (scancode event = SDL_SCANCODE_S) then
      avr_raise_irq BUTTON_B value w
    else w
  else w.

(** The scancode to button table the switch amounts to, as the
    specification words it. *)
Definition key_table : list (Z * Button) :=
  [ (SDL_SCANCODE_UP, BUTTON_UP); (SDL_SCANCODE_DOWN, BUTTON_DOWN);
    (SDL_SCANCODE_LEFT, BUTTON_LEFT); (SDL_SCANCODE_RIGHT, BUTTON_RIGHT);
    (SDL_SCANCODE_A, BUTTON_A); (SDL_SCANCODE_S, BUTTON_B) ].

Fixpoint table_lookup (table : list (Z * Button)) (code : Z) : option Button :=
  match table with
  | [] => None
  | (c, b) :: rest => if decide (c = code) then Some b else table_lookup rest code
  end.

Definition button_of (code : Z) : option Button := table_lookup key_table code.

(** The two threads. *)
Inductive thread : Type := Core | Main.

(** One step of [run_core]: [while(running) { avr_run(avr); }].
    [None] when the function has returned. *)
Definition step_core (w : world) : option world :=
  match core_at w with
  | CoreTest =>
      Some (count_check
              (set_core (if running w then CoreStep else CoreExited) w))
  | CoreStep => Some (count_avr_run (set_core CoreTest w))
  | CoreExited => None
  end.

(** One step of the loop of [main], lines 185-232. [None] when [main] has
    returned or waits in [join] for a core thread that has not returned. *)
Definition step_main (w : world) : option world :=
  match main_at w with
  | MainTest => Some (set_main (if running w then MainPoll else MainJoin) w)
  | MainPoll =>
      match queue w with
      | [] => Some (set_main MainDraw w)
      | event :: rest => Some (dispatch event (set_queue rest w))
      end
  | MainDraw => Some (count_frame (set_main MainTest w))
  | MainJoin =>
      match core_at w with
      | CoreExited => Some (set_main MainExited w)
      | _ => None
      end
  | MainExited => None
  end.

Definition step (t : thread) (w : world) : option world :=
  match t with
  | Core => step_core w
  | Main => step_main w
  end.

(** A schedule names the thread that runs next; a thread that cannot step
    leaves the world as it is. *)
Definition exec_step (w : world) (t : thread) : world :=
  match step t w with
  | Some w' => w'
  | None => w
  end.

Definition exec (schedule : list thread) (w : world) : world :=
  fold_left exec_step schedule w.

(** The world when [main] reaches its loop: the core thread was started at
    line 159 and may have run already. *)
Definition boot (p : gmap pin Z) (q : list SDL_Event) : world :=
  World true p q 0 0 0 CoreTest MainTest.

(** A round of a schedule in which both threads get to run. *)
Definition is_core (t : thread) : bool :=
  match t with Core => true | Main => false end.
Definition is_main (t : thread) : bool :=
  match t with Core => false | Main => true end.
Definition fair_round (round : list thread) : bool :=
  existsb is_core round && existsb is_main round.

(** Steps left to [run_core] and to [main] once [running] is false. *)
Definition core_left (w : world) : nat :=
  match core_at w with
  | CoreStep => 2
  | CoreTest => 1
  | CoreExited => 0
  end.

Definition main_left (w : world) : nat :=
  match main_at w with
  | MainPoll => length (queue w) + 4
  | MainDraw => 3
  | MainTest => 2
  | MainJoin => 1
  | MainExited => 0
  end.

Definition shutdown_bound (w : world) : nat := core_left w + main_left w.

(** The calls still to complete once [running] is false. *)
Definition avr_runs_due (w : world) : nat :=
  match core_at w with CoreStep => 1 | _ => 0 end.
Definition frames_due (w : world) : nat :=
  match main_at w with MainPoll | MainDraw => 1 | _ => 0 end.

(** What a step does once [running] is false. *)
Definition winds_down (w w' : world) : Prop :=
  running w' = false /\
  (core_left w' <= core_left w)%nat /\
  (main_left w' <= main_left w)%nat /\
  (shutdown_bound w' < shutdown_bound w)%nat /\
  (avr_runs w' + avr_runs_due w' = avr_runs w + avr_runs_due w)%nat /\
  (frames w' + frames_due w' = frames w + frames_due w)%nat /\
  (main_at w = MainPoll \/ queue w = [] ->
   main_at w' = MainPoll \/ queue w' = []).

(** What [run_core] keeps between its flag tests and its calls of
    [avr_run]: one test before each call, and one more to leave. *)
Definition checks_match (w : world) : Prop :=
  checks w = (avr_runs w + match core_at w with CoreTest => 0 | _ => 1 end)%nat.

(** A scheduled step never raises a measure and keeps the totals. *)
Definition settles (w w' : world) : Prop :=
  running w' = false /\
  (core_left w' <= core_left w)%nat /\
  (main_left w' <= main_left w)%nat /\
  (avr_runs w' + avr_runs_due w' = avr_runs w + avr_runs_due w)%nat /\
  (frames w' + frames_due w' = frames w + frames_due w)%nat /\
  (main_at w = MainPoll \/ queue w = [] ->
   main_at w' = MainPoll \/ queue w' = []).

(** ** The start-up path of [main] (lines 85-183) *)

(** [a] starts with [b]. *)
Fixpoint starts_with (a b : string) {struct b} : bool :=
  match b with
  | EmptyString => true
  | String cb b' =>
      match a with
      | EmptyString => false
      | String ca a' => if Ascii.eqb ca cb then starts_with a' b' else false
      end
  end.

(** [strstr(haystack, needle)]: the tail of [haystack] from the first
    occurrence of [needle] on, [None] for a null pointer. *)
Fixpoint strstr (haystack needle : string) : option string :=
  if starts_with haystack needle then Some haystack
  else match haystack with
       | EmptyString => None
       | String _ rest => strstr rest needle
       end.

(** What [main] does to the outside, in program order. *)
Inductive effect : Type :=
  | Usage (argv0 : option string)
      (* std::cerr << "Usage: " << argv[0] << " firmware.elf|firmware.hex\n" *)
  | Avr_make_mcu_by_name (name : string)
  | Avr_init
  | Elf_read_firmware (path : string)
  | Avr_load_firmware (frequency : Z)
  | Read_ihex_file (path : string)
  | Avr_loadcode (frequency : Z)
  | Ssd1306_init (width height : Z)
  | Ssd1306_connect
  | Avr_irq_register_notify (port : ascii) (bit : Z)
  | Avr_cycle_timer_register_usec (usec : Z)
  | SDL_Init
  | SDL_CreateRGBSurface
  | SDL_CreateWindow (width height : Z)
  | SDL_CreateRenderer
  | SDL_CreateTexture (width height : Z)
  | SDL_OpenAudio (freq channels block : Z)
  | SDL_ShowCursor
  | Start_core_thread
  | SDL_PauseAudio (pause_on : Z)
  | Avr_alloc_irq
  | Avr_connect_irq (b : Button) (to : pin).

(** How [main] ends, or that it reached its event loop. *)
Inductive outcome : Type :=
  | Return (code : Z)
  | Throw (what : string)
  | EventLoop.

(** The answers of the outside that [main] tests. *)
Record host : Type := Host {
  mcu_made : bool;            (* avr_make_mcu_by_name returned non-null *)
  sdl_up : bool;              (* SDL_Init(...) >= 0 *)
  surface_made : bool;
  window_made : bool;
  renderer_made : bool;
  texture_made : bool;
  audio_opened : bool;        (* SDL_OpenAudio(...) >= 0 *)
  have_freq : Z               (* have.freq *)
}.

(** A trace of effects, then either the end of [main] or a value. *)
Definition Init (A : Type) : Type := list effect * (outcome + A).

Definition init_ret {A} (a : A) : Init A := ([], inr a).
Definition init_bind {A B} (m : Init A) (k : A -> Init B) : Init B :=
  match m with
  | (t, inl o) => (t, inl o)
  | (t, inr a) => let (t', r) := k a in (t ++ t', r)
  end.
Definition perform_effect (e : effect) : Init unit := ([e], inr tt).
Definition throw {A} (what : string) : Init A := ([], inl (Throw what)).
Definition require (ok : bool) (what : string) : Init unit :=
  if ok then init_ret tt else throw what.

Notation "'doing' m 'and_then' k" := (init_bind m (fun _ => k))
  (at level 10, m at level 100, k at level 200).

Fixpoint perform_effects (es : list effect) : Init unit :=
  match es with
  | [] => init_ret tt
  | e :: rest => doing perform_effect e and_then perform_effects rest
  end.

Definition buttons : list Button :=
  [BUTTON_UP; BUTTON_DOWN; BUTTON_LEFT; BUTTON_RIGHT; BUTTON_A; BUTTON_B].

(** Lines 99-110: the choice of the loader. *)
Definition load_firmware (path : string) : Init unit :=
  match strstr path ".elf" with
  | Some _ =>
      doing perform_effect (Elf_read_firmware path) and_then
      perform_effect (Avr_load_firmware 16000000)
  | None =>
      doing perform_effect (Read_ihex_file path) and_then
      perform_effect (Avr_loadcode 16000000)
  end.

(** Lines 91-183, after the test of [argc]. *)
Definition initialize (path : string) (h : host) : Init unit :=
  doing perform_effect (Avr_make_mcu_by_name "atmega32u4") and_then
  doing require (mcu_made h) "Could not create AVR instance" and_then
  doing perform_effect Avr_init and_then
  doing load_firmware path and_then
  doing perform_effect (Ssd1306_init 128 64) and_then
  doing perform_effect Ssd1306_connect and_then
  doing perform_effect (Avr_irq_register_notify "C"%char 7) and_then
  doing perform_effect (Avr_irq_register_notify "C"%char 6) and_then
  doing perform_effect (Avr_cycle_timer_register_usec 125) and_then
  doing perform_effect SDL_Init and_then
  doing require (sdl_up h) "Could not initialize SDL" and_then
  doing perform_effect SDL_CreateRGBSurface and_then
  doing require (surface_made h) "Could not create surface" and_then
  doing perform_effect (SDL_CreateWindow 256 128) and_then
  doing require (window_made h) "Could not create window" and_then
  doing perform_effect SDL_CreateRenderer and_then
  doing require (renderer_made h) "Could not create renderer" and_then
  doing perform_effect (SDL_CreateTexture 128 64) and_then
  doing require (texture_made h) "Could not create texture" and_then
  doing perform_effect (SDL_OpenAudio audio_frequency 1 nsamples) and_then
  doing require (audio_opened h && bool_decide (audio_frequency = have_freq h))
                "Could not open audio device" and_then
  doing perform_effect SDL_ShowCursor and_then
  doing perform_effect Start_core_thread and_then
  doing perform_effect (SDL_PauseAudio 0) and_then
  doing perform_effects (map (fun _ => Avr_alloc_irq) buttons) and_then
  perform_effects (map (fun b => Avr_connect_irq b (wiring b)) buttons).

(** [main], up to its event loop. [argv] holds the [argc] arguments;
    [argv[argc]] is the null pointer. *)
Definition main (argv : list string) (h : host) : list effect * outcome :=
  let argc := Z.of_nat (length argv) in
  if decide (argc <= 1) then ([Usage (argv !! 0%nat)], Return 1)
  else
    match argv !! 1%nat with
    | Some path =>
        match initialize path h with
        | (t, inl o) => (t, o)
        | (t, inr _) => (t, EventLoop)
        end
    | None => ([], Throw "argv[1] is null")
    end.

(** The file-name suffix the specification speaks of. *)
Definition ends_in (path suffix : string) : Prop :=
  exists stem, path = (stem +:+ suffix)%string.

Definition contains (path part : string) : Prop :=
  exists before after, path = (before +:+ part +:+ after)%string.

Definition is_usage (e : effect) : bool :=
  match e with Usage _ => true | _ => false end.

(** A start-up computation that prints no usage message and does not
    return from [main]. *)
Definition no_usage {A} (m : Init A) : Prop :=
  existsb is_usage (fst m) = false /\
  forall code, snd m <> inl (Return code).

Definition elf_loaded (path : string) : Init unit :=
  ([Elf_read_firmware path; Avr_load_firmware 16000000], inr tt).
Definition ihex_loaded (path : string) : Init unit :=
  ([Read_ihex_file path; Avr_loadcode 16000000], inr tt).

(** ** Measures of a sequence of audio events *)

(** The number of timer calls among the events. *)
Fixpoint timer_calls (es : list audio_event) : Z :=
  match es with
  | [] => 0
  | TimerFires _ :: rest => 1 + timer_calls rest
  | _ :: rest => timer_calls rest
  end.

(** The whole samples the pulls among the events advance the read cursor
    by: [len / sizeof( *samples )] for each. *)
Fixpoint samples_pulled (es : list audio_event) : Z :=
  match es with
  | [] => 0
  | AudioPull len :: rest => len / 2 + samples_pulled rest
  | _ :: rest => samples_pulled rest
  end.

(** The samples the timer calls among the events store, [level] being
    the speaker level before the first event: each call stores the level
    the last pin change before it left. *)
Fixpoint sampled (level : Z) (es : list audio_event) : list Z :=
  match es with
  | [] => []
  | PinChange value :: rest => sampled (u8 value) rest
  | TimerFires _ :: rest => sample_of level :: sampled level rest
  | AudioPull _ :: rest => sampled level rest
  end.

(** What every run of the audio events keeps of the globals. *)
Definition globals_ok (g : globals) : Prop :=
  length (samples g) = 1024%nat /\
  0 <= cur_sample g < 1024 /\
  0 <= out_sample g < 1024 /\
  0 <= speaker_value g < 256 /\
  Forall (fun v => 0 <= v < 65536) (samples g).

(** ** Shapes of the video memory *)

(** Every cell of the video memory is a byte. *)
Definition byte_cells (display : ssd1306_t) : Prop :=
  Forall (Forall (fun b => 0 <= b < 256)) (vram display).

(** The video memory has the cells [draw_display] reads: at least eight
    pages, the first eight of at least 128 columns. *)
Definition covers_frame (display : ssd1306_t) : Prop :=
  forall page column,
    0 <= page < 8 -> 0 <= column < 128 ->
    is_Some (vram_read display page column).

(** What the loop body stores for pixel (x, y). *)
Definition shade (display : ssd1306_t) (y x : Z) : Z :=
  match vram_read display (Z.quot y 8) x with
  | Some byte =>
      if decide (Z.land (Z.shiftr byte (Z.land y 7)) 1 <> 0)
      then white else black
  | None => black
  end.

(** ** Reading the key dispatch as a table *)

#[global] Instance Button_eq_dec : EqDecision Button.
Proof. solve_decision. Defined.

(** The pin a key event raises and the level, if any. *)
Definition key_action (event : SDL_Event) : option (Button * Z) :=
  if decide (type event = SDL_KEYDOWN) then
    match button_of (scancode event) with
    | Some b => Some (b, 0)
    | None => None
    end
  else if decide (type event = SDL_KEYUP) then
    match button_of (scancode event) with
    | Some b => Some (b, 1)
    | None => None
    end
  else None.

Definition is_quit (event : SDL_Event) : bool :=
  bool_decide (type event = SDL_QUIT).

(** The level the last key event for button [b] among [events] asks for;
    [level] when there is none. *)
Fixpoint last_level (b : Button) (events : list SDL_Event) (level : option Z)
    : option Z :=
  match events with
  | [] => level
  | event :: rest =>
      last_level b rest
        (match key_action event with
         | Some (b', v) => if decide (b' = b) then Some v else level
         | None => level
         end)
  end.

(** The steps of [main] until it has handled the first quit event of the
    queue. *)
Fixpoint to_quit (events : list SDL_Event) : nat :=
  match events with
  | [] => 0
  | event :: rest => if is_quit event then 1 else S (to_quit rest)
  end.

Definition main_to_quit (w : world) : nat :=
  (to_quit (queue w) + match main_at w with MainTest => 1 | _ => 0 end)%nat.

(** The first iteration of the loop of [main], a quit event pending, then
    the wind-down: [n] bounds the steps of [main] to the quit event, [L]
    the length of the queue at the start. *)
Definition quitting (L n : nat) (w : world) : Prop :=
  (running w = true /\ frames w = 0%nat /\
   existsb is_quit (queue w) = true /\
   (main_at w = MainTest \/ main_at w = MainPoll) /\
   (length (queue w) <= L)%nat /\
   (main_to_quit w <= n)%nat)
  \/
  (running w = false /\
   (frames w + frames_due w = 1)%nat /\
   (main_at w = MainPoll \/ queue w = []) /\
   (shutdown_bound w <= L + 6)%nat).

(** Neither loop has left and no quit event is pending. *)
Definition keeps_running (w : world) : Prop :=
  running w = true /\
  existsb is_quit (queue w) = false /\
  core_at w <> CoreExited /\
  (main_at w = MainTest \/ main_at w = MainPoll \/ main_at w = MainDraw).

(** ** Events that arrive while the loops run *)

(** What happens next: one of the two threads takes a step, or the host
    delivers an event. *)
Inductive actor : Type :=
  | Runs (t : thread)
  | Arrives (event : SDL_Event).

(** Modelled from the spec: the host input subsystem "produces discrete
    key-down/key-up events"; an event that arrives is put behind those
    [SDL_PollEvent] has yet to return. *)
Definition enqueue (event : SDL_Event) (w : world) : world :=
  set_queue (queue w ++ [event]) w.

Definition live_step (w : world) (a : actor) : world :=
  match a with
  | Runs t => exec_step w t
  | Arrives event => enqueue event w
  end.

Definition live_exec (acts : list actor) (w : world) : world :=
  fold_left live_step acts w.

Definition quit_arrives (a : actor) : bool :=
  match a with
  | Arrives event => is_quit event
  | Runs _ => false
  end.

(** ** Outcomes of the start-up *)

(** Every test of the start-up passes. *)
Definition host_ready (h : host) : bool :=
  mcu_made h && sdl_up h && surface_made h && window_made h &&
  renderer_made h && texture_made h && audio_opened h &&
  bool_decide (audio_frequency = have_freq h).

(** A host on which every test passes. *)
Definition host_good : host :=
  Host true true true true true true true audio_frequency.

Definition is_thread_start (e : effect) : bool :=
  match e with Start_core_thread => true | _ => false end.
(** * Properties of the ring buffer *)

Section RingBuffer.

#[local] Arguments Nat.modulo : simpl never.
#[local] Arguments Nat.div : simpl never.
#[local] Arguments Z.modulo : simpl never.
#[local] Arguments Z.div : simpl never.
#[local] Arguments Z.mul : simpl never.

Lemma u16_range z : 0 <= u16 z < 65536.
Proof. unfold u16. change (2 ^ 16) with 65536. lia. Qed.

Lemma sample_of_range v : 0 <= sample_of v < 65536.
Proof. apply u16_range. Qed.

Lemma bind_Some {A B} (m : M A) (k : A -> M B) g a g' :
  m g = Some (a, g') -> bind m k g = k a g'.
Proof. unfold bind. now intros ->. Qed.

Lemma produce_all_snoc levels v g :
  produce_all (levels ++ [v]) g =
  match produce_all levels g with
  | Some (_, g') => produce v g'
  | None => None
  end.
Proof.
  revert g. induction levels as [|w levels IH]; intros g; simpl.
  - unfold bind, ret. destruct (produce v g) as [[[] g']|]; reflexivity.
  - unfold bind. destruct (produce w g) as [[[] g1]|]; [apply IH | reflexivity].
Qed.

Lemma produce_step levels v g :
  ring_of levels g ->
  exists g', produce v g = Some (tt, g') /\
             ring_of (levels ++ [v]) g' /\
             out_sample g' = out_sample g.
Proof.
  intros (Hlen & Hcur & Hrange & Hslots).
  unfold produce, bind, speaker_hook, speaker_timer, ret; simpl.
  rewrite Hlen, Hcur.
  change (Z.of_nat 1024) with 1024.
  destruct (decide _) as [_|Hn]; [|exfalso; lia].
  eexists; split; [reflexivity|]. simpl. split; [|reflexivity].
  unfold ring_of; simpl. rewrite length_insert, length_app; simpl.
  split; [exact Hlen|]. split.
  { unfold u16, nsamples. change (2 ^ 16) with 65536. lia. }
  split.
  { apply Forall_insert; [exact Hrange | apply sample_of_range]. }
  intros j Hj Hwin.
  assert (Hidx : Z.to_nat (Z.of_nat (length levels) mod 1024)
                 = (length levels mod 1024)%nat) by lia.
  rewrite Hidx. unfold produced. rewrite map_app; simpl.
  destruct (decide (j = length levels)) as [->|Hne].
  - rewrite list_lookup_insert_eq by (rewrite Hlen; lia).
    rewrite lookup_app_r by (rewrite length_map; lia).
    rewrite length_map, Nat.sub_diag. reflexivity.
  - rewrite list_lookup_insert_ne by lia.
    rewrite lookup_app_l by (rewrite length_map; lia).
    apply Hslots; lia.
Qed.

Lemma ring_of_init : ring_of [] globals_init.
Proof.
  unfold ring_of, globals_init; cbn [samples cur_sample].
  split; [now rewrite length_replicate|].
  split; [reflexivity|].
  split; [apply Forall_replicate; lia|].
  intros j Hj. cbn [length] in Hj. lia.
Qed.

Lemma produce_all_ring levels :
  exists g, produce_all levels globals_init = Some (tt, g) /\
            ring_of levels g /\ out_sample g = 0.
Proof.
  induction levels as [|v levels IH] using rev_ind.
  - exists globals_init. split; [reflexivity|]. split; [apply ring_of_init | reflexivity].
  - destruct IH as (g & Hrun & Hring & Hout).
    destruct (produce_step levels v g Hring) as (g' & Hstep & Hring' & Hout').
    exists g'. rewrite produce_all_snoc, Hrun.
    split; [exact Hstep|]. split; [exact Hring' | congruence].
Qed.

(** The byte view commutes with slicing on sample boundaries. *)
Lemma bytes_of_app l k : bytes_of (l ++ k) = bytes_of l ++ bytes_of k.
Proof. unfold bytes_of. now rewrite flat_map_app. Qed.

Lemma bytes_of_drop (n : nat) l :
  drop (2 * n) (bytes_of l) = bytes_of (drop n l).
Proof.
  revert l. induction n as [|n IH]; intros l; [reflexivity|].
  destruct l as [|x l]; [reflexivity|].
  replace (2 * S n)%nat with (S (S (2 * n))) by lia.
  cbn [drop bytes_of flat_map le16 app]. apply IH.
Qed.

Lemma bytes_of_take (n : nat) l :
  take (2 * n) (bytes_of l) = bytes_of (take n l).
Proof.
  revert l. induction n as [|n IH]; intros l; [reflexivity|].
  destruct l as [|x l]; [reflexivity|].
  replace (2 * S n)%nat with (S (S (2 * n))) by lia.
  cbn [take bytes_of flat_map le16 app]. f_equal. f_equal. apply IH.
Qed.

Lemma length_bytes_of l : length (bytes_of l) = (2 * length l)%nat.
Proof.
  induction l as [|x l IH]; [reflexivity|].
  cbn [bytes_of flat_map le16 app length] in *. unfold bytes_of in IH. lia.
Qed.

Lemma samples_of_stream_bytes l :
  Forall (fun v => 0 <= v < 65536) l -> samples_of_stream (bytes_of l) = l.
Proof.
  induction 1 as [|x l Hx _ IH]; [reflexivity|].
  cbn [bytes_of flat_map le16 app samples_of_stream].
  f_equal; [lia | exact IH].
Qed.

(** A callback for [k] whole samples that stays below the end of the
    array returns the [k] samples from the read cursor on. *)
Lemma consume_slice g k o :
  length (samples g) = 1024%nat ->
  0 <= k -> 0 <= o -> o + k <= 1024 -> out_sample g = o mod 1024 ->
  consume k g =
  Some (bytes_of (take (Z.to_nat k) (drop (Z.to_nat o) (samples g))),
        Globals (speaker_value g) (samples g) (cur_sample g)
                ((o + k) mod 1024)).
Proof.
  intros Hlen Hk Ho Hfit Hout.
  unfold consume, audio_callback. rewrite Hlen, Hout.
  change (Z.of_nat 1024) with 1024.
  destruct (decide _) as [_|Hn]; [|exfalso; lia].
  f_equal. f_equal.
  - destruct (decide (o = 1024)) as [->|Hne].
    + assert (k = 0) as -> by lia. reflexivity.
    + replace (Z.to_nat (2 * k)) with (2 * Z.to_nat k)%nat by lia.
      replace (Z.to_nat (2 * (o mod 1024))) with (2 * Z.to_nat o)%nat by lia.
      now rewrite bytes_of_drop, bytes_of_take.
  - f_equal. unfold u16, nsamples. change (2 ^ 16) with 65536. lia.
Qed.

Lemma sum_counts_nonneg counts :
  Forall (fun k => 0 <= k) counts -> 0 <= sum_counts counts.
Proof. induction 1; unfold sum_counts in *; cbn [foldr]; lia. Qed.

Lemma consume_all_slice counts :
  forall g o,
    length (samples g) = 1024%nat ->
    Forall (fun k => 0 <= k) counts ->
    0 <= o -> o + sum_counts counts <= 1024 ->
    out_sample g = o mod 1024 ->
    exists g',
      consume_all counts g =
      Some (bytes_of (take (Z.to_nat (sum_counts counts))
                           (drop (Z.to_nat o) (samples g))), g') /\
      samples g' = samples g /\
      out_sample g' = (o + sum_counts counts) mod 1024.
Proof.
  induction counts as [|k counts IH]; intros g o Hlen Hpos Ho Hfit Hout.
  - exists g. cbn [consume_all sum_counts foldr ret].
    rewrite Z.add_0_r. now repeat split.
  - apply Forall_cons in Hpos as [Hk Hpos].
    pose proof (sum_counts_nonneg counts Hpos) as Hrest.
    change (sum_counts (k :: counts)) with (k + sum_counts counts) in Hfit |- *.
    cbn [consume_all].
    rewrite (bind_Some _ _ g _ _ (consume_slice g k o Hlen Hk Ho ltac:(lia) Hout)).
    set (g1 := Globals _ _ _ _).
    destruct (IH g1 (o + k)) as (g' & Hrun & Hsame & Hout');
      [exact Hlen | exact Hpos | lia | lia | reflexivity |].
    exists g'. rewrite (bind_Some _ _ g1 _ _ Hrun). unfold ret.
    split; [|split; [exact Hsame | rewrite Hout'; f_equal; lia]].
    f_equal. f_equal. rewrite <- bytes_of_app. f_equal.
    cbn [samples g1].
    replace (Z.to_nat (o + k)) with (Z.to_nat o + Z.to_nat k)%nat by lia.
    rewrite <- drop_drop, take_take_drop. f_equal. lia.
Qed.

Lemma ring_prefix levels g :
  ring_of levels g -> (length levels <= 1024)%nat ->
  take (length levels) (samples g) = produced levels.
Proof.
  intros (Hlen & _ & _ & Hslots) Hn.
  apply list_eq. intros i.
  destruct (decide (i < length levels)%nat) as [Hi|Hi].
  - rewrite lookup_take_lt by lia.
    rewrite <- (Hslots i) by lia. f_equal. lia.
  - rewrite lookup_take_ge by lia. symmetry.
    apply lookup_ge_None. unfold produced. rewrite length_map. lia.
Qed.

Lemma ring_rotated levels (K : nat) g :
  ring_of levels g -> length levels = (1024 + K)%nat ->
  samples g =
  drop (1024 - K mod 1024) (drop K (produced levels)) ++
  take (1024 - K mod 1024) (drop K (produced levels)).
Proof.
  intros (Hlen & _ & _ & Hslots) Hn.
  assert (Hp : length (produced levels) = (1024 + K)%nat)
    by (unfold produced; now rewrite length_map).
  set (r := (K mod 1024)%nat).
  assert (Hr : (r < 1024)%nat) by (subst r; lia).
  apply list_eq. intros i.
  destruct (decide (i < 1024)%nat) as [Hi|Hi].
  - destruct (decide (i < r)%nat) as [Hlt|Hge].
    + rewrite lookup_app_l by (rewrite !length_drop; lia).
      rewrite !lookup_drop.
      rewrite <- Hslots by lia. f_equal. subst r. lia.
    + rewrite lookup_app_r by (rewrite !length_drop; lia).
      rewrite !length_drop, Hp.
      rewrite lookup_take_lt by lia. rewrite lookup_drop.
      rewrite <- Hslots by lia. f_equal. subst r. lia.
  - rewrite (proj2 (lookup_ge_None _ _)) by lia. symmetry.
    apply lookup_ge_None.
    rewrite length_app, length_take, !length_drop. lia.
Qed.

End RingBuffer.

(** ** Claims on the ring buffer *)

(** C1. First in, first out under capacity: from the empty buffer with
    both cursors at 0, appending N samples with 0 < N <= 1024 and then
    pulling N samples in total, in any number of callbacks, delivers the
    appended samples in the order they were appended. *)
Theorem fifo_under_capacity (levels counts : list Z) :
  (0 < length levels <= 1024)%nat ->
  Forall (fun k => 0 <= k) counts ->
  sum_counts counts = Z.of_nat (length levels) ->
  exists stream g,
    (run produce_all levels then consume_all counts) globals_init
      = Some (stream, g) /\
    stream = bytes_of (produced levels) /\
    samples_of_stream stream = produced levels.
Proof.
  intros Hn Hpos Hsum.
  destruct (produce_all_ring levels) as (g & Hrun & Hring & Hout).
  pose proof Hring as (Hlen & _ & Hrange & _).
  destruct (consume_all_slice counts g 0) as (g' & Hpull & _ & _);
    [exact Hlen | exact Hpos | lia | lia | now rewrite Hout |].
  exists (bytes_of (produced levels)), g'.
  assert (Hslice : take (Z.to_nat (sum_counts counts))
                        (drop (Z.to_nat 0) (samples g)) = produced levels).
  { rewrite Hsum, Nat2Z.id. change (Z.to_nat 0) with 0%nat.
    rewrite drop_0. apply ring_prefix; [exact Hring | lia]. }
  split; [|split; [reflexivity|]].
  - rewrite (bind_Some _ _ _ _ _ Hrun), Hpull, Hslice. reflexivity.
  - apply samples_of_stream_bytes. rewrite <- Hslice.
    apply Forall_take. exact Hrange.
Qed.

Lemma fifo_under_capacity_witness :
  exists stream g,
    (run produce_all [1; 0; 1] then consume_all [1; 2]) globals_init
      = Some (stream, g) /\
    stream = bytes_of (produced [1; 0; 1]) /\
    samples_of_stream stream = produced [1; 0; 1].
Proof.
  apply (fifo_under_capacity [1; 0; 1] [1; 2]).
  - simpl. lia.
  - repeat constructor; lia.
  - reflexivity.
Defined.

(** C2, as the code has it. After 1024 + K samples (K > 0) were appended
    with no pull in between, one pull of 1024 samples delivers the newest
    1024 samples, the oldest K being lost, but in slot order: the newest
    K mod 1024 of them come first, then the older 1024 - K mod 1024, each
    group in the order it was appended. *)
Theorem overrun_keeps_newest_rotated (levels : list Z) (K : nat) :
  (0 < K)%nat ->
  length levels = (1024 + K)%nat ->
  exists stream g,
    (run produce_all levels then consume 1024) globals_init
      = Some (stream, g) /\
    samples_of_stream stream =
      drop (1024 - K mod 1024) (drop K (produced levels)) ++
      take (1024 - K mod 1024) (drop K (produced levels)).
Proof.
  intros HK Hn.
  destruct (produce_all_ring levels) as (g & Hrun & Hring & Hout).
  pose proof Hring as (Hlen & _ & Hrange & _).
  pose proof (consume_slice g 1024 0 Hlen ltac:(lia) ltac:(lia) ltac:(lia)
                ltac:(now rewrite Hout)) as Hpull.
  change (Z.to_nat 0) with 0%nat in Hpull. rewrite drop_0 in Hpull.
  rewrite take_ge in Hpull by (rewrite Hlen; lia).
  eexists _, _. split.
  - rewrite (bind_Some _ _ _ _ _ Hrun). exact Hpull.
  - rewrite samples_of_stream_bytes by exact Hrange.
    now apply ring_rotated.
Qed.

Lemma overrun_keeps_newest_rotated_witness :
  exists stream g,
    (run produce_all (replicate 1024 0 ++ [1]) then consume 1024) globals_init
      = Some (stream, g) /\
    samples_of_stream stream =
      drop (1024 - 1 mod 1024)
           (drop 1 (produced (replicate 1024 0 ++ [1]))) ++
      take (1024 - 1 mod 1024)
           (drop 1 (produced (replicate 1024 0 ++ [1]))).
Proof.
  apply (overrun_keeps_newest_rotated (replicate 1024 0 ++ [1]) 1).
  - lia.
  - vm_compute. reflexivity.
Defined.

(** C2 as stated fails: with 1025 samples appended, the last one at level
    1 and the others at level 0, the pull starts with the newest sample,
    whereas the newest 1024 samples in the order of their production end
    with it. *)
Lemma overrun_production_order_counterexample :
  exists stream g,
    (run produce_all (replicate 1024 0 ++ [1]) then consume 1024) globals_init
      = Some (stream, g) /\
    samples_of_stream stream !! 0%nat = Some 0x4000 /\
    drop 1 (produced (replicate 1024 0 ++ [1])) !! 0%nat = Some 0 /\
    samples_of_stream stream <> drop 1 (produced (replicate 1024 0 ++ [1])).
Proof.
  eexists _, _. split; [vm_compute; reflexivity|].
  split; [vm_compute; reflexivity|].
  split; [vm_compute; reflexivity|].
  intros H. apply (f_equal (fun l => l !! 0%nat)) in H.
  vm_compute in H. discriminate H.
Qed.

(** C3, as the code has it. Each call of [speaker_timer] stores, at the
    write cursor, the speaker level times 0x4000: 0 for level 0 and 0x4000
    (16384, half of the range of a signed 16-bit sample) for level 1; it
    returns its deadline plus the period. *)
Theorem speaker_timer_sample (level when : Z) (g : globals) :
  level = 0 \/ level = 1 ->
  speaker_value g = level ->
  0 <= cur_sample g < Z.of_nat (length (samples g)) ->
  exists g',
    speaker_timer when g = Some (u64 (when + next), g') /\
    samples g' !! Z.to_nat (cur_sample g)
      = Some (if decide (level = 0) then 0 else 0x4000) /\
    cur_sample g' = (cur_sample g + 1) mod nsamples.
Proof.
  intros Hlevel Hval Hcur. unfold speaker_timer.
  destruct (decide _) as [_|Hn]; [|contradiction].
  eexists. split; [reflexivity|]. cbn [samples cur_sample]. split.
  - rewrite list_lookup_insert_eq by lia. rewrite Hval.
    destruct Hlevel as [-> | ->]; reflexivity.
  - unfold u16, nsamples in *. change (2 ^ 16) with 65536.
    assert (cur_sample g < 65536 \/ 65536 <= cur_sample g) as [H|H] by lia.
    + lia.
    + lia.
Qed.

Lemma speaker_timer_sample_witness :
  exists g',
    speaker_timer 2000 (Globals 1 (replicate 1024 0) 0 0)
      = Some (u64 (2000 + next), g') /\
    samples g' !! Z.to_nat 0 = Some (if decide (1 = 0) then 0 else 0x4000) /\
    cur_sample g' = (0 + 1) mod nsamples.
Proof.
  apply (speaker_timer_sample 1 2000 (Globals 1 (replicate 1024 0) 0 0)).
  - right. reflexivity.
  - reflexivity.
  - vm_compute. split; [discriminate | reflexivity].
Defined.

(** C3 as stated fails: at level 1 the stored sample is 0x4000, not the
    largest positive signed 16-bit value 0x7fff. *)
Lemma speaker_timer_full_scale_counterexample :
  exists w g',
    (run speaker_hook 1 then speaker_timer 2000) globals_init = Some (w, g') /\
    speaker_value g' = 1 /\
    samples g' !! 0%nat = Some 0x4000 /\
    samples g' !! 0%nat <> Some 0x7fff.
Proof.
  eexists _, _. split; [vm_compute; reflexivity|].
  split; [reflexivity|].
  split; [reflexivity|].
  vm_compute. discriminate.
Qed.

Lemma block_aligned_init : block_aligned globals_init.
Proof.
  unfold block_aligned, globals_init. cbn [samples cur_sample out_sample].
  rewrite length_replicate. split; [reflexivity | lia].
Qed.

Lemma perform_block_aligned e g :
  block_aligned g -> fixed_block e ->
  exists g', perform e g = Some (tt, g') /\ block_aligned g'.
Proof.
  intros (Hlen & Hcur & Hout) He. destruct e as [v|w|len]; cbn [perform].
  - eexists. split; [reflexivity|]. now repeat split.
  - unfold bind, speaker_timer, ret. rewrite Hlen.
    change (Z.of_nat 1024) with 1024.
    destruct (decide _) as [_|Hn]; [|contradiction].
    eexists. split; [reflexivity|].
    unfold block_aligned. cbn [samples cur_sample out_sample].
    rewrite length_insert. unfold u16, nsamples. change (2 ^ 16) with 65536.
    split; [exact Hlen|]. split; [lia | exact Hout].
  - cbn [fixed_block] in He. subst len.
    unfold bind, audio_callback, ret. rewrite Hlen, Hout.
    destruct (decide _) as [_|Hn]; [|exfalso; apply Hn; vm_compute; intuition discriminate].
    eexists. split; [reflexivity|].
    unfold block_aligned. cbn [samples cur_sample out_sample].
    split; [exact Hlen|]. split; [exact Hcur | reflexivity].
Qed.

Lemma perform_all_block_aligned es :
  forall g, block_aligned g -> Forall fixed_block es ->
  exists g', perform_all es g = Some (tt, g') /\ block_aligned g'.
Proof.
  induction es as [|e es IH]; intros g Hg Hes.
  - exists g. split; [reflexivity | exact Hg].
  - apply Forall_cons in Hes as [He Hes].
    destruct (perform_block_aligned e g Hg He) as (g1 & Hstep & Hg1).
    destruct (IH g1 Hg1 Hes) as (g' & Hrun & Hg').
    exists g'. cbn [perform_all]. rewrite (bind_Some _ _ _ _ _ Hstep).
    split; [exact Hrun | exact Hg'].
Qed.

(** C10. The callback copies [len] bytes from the read cursor on without
    wrapping, so the copy is inside the 1024-sample array only when
    [out_sample + len / 2 <= 1024]. When every callback asks for the
    configured block of 1024 samples, whatever the producer does in
    between, every copy is inside the array and the read cursor is 0
    before and after each callback. *)
Theorem audio_callback_bounds (len : Z) (g0 : globals) (es : list audio_event) :
  length (samples g0) = 1024%nat ->
  Forall fixed_block es ->
  (is_Some (audio_callback len g0) -> out_sample g0 + len / 2 <= 1024) /\
  exists g,
    perform_all es globals_init = Some (tt, g) /\
    out_sample g = 0 /\
    exists stream g',
      audio_callback block_len g = Some (stream, g') /\
      stream = bytes_of (samples g) /\
      length stream = 2048%nat /\
      out_sample g' = 0.
Proof.
  intros Hlen Hes. split.
  - unfold audio_callback. rewrite Hlen. change (Z.of_nat 1024) with 1024.
    destruct (decide _) as [Hok|_]; [lia|].
    intros [x Hx]. discriminate Hx.
  - destruct (perform_all_block_aligned es globals_init block_aligned_init Hes)
      as (g & Hrun & Hlen' & Hcur & Hout).
    exists g. split; [exact Hrun|]. split; [exact Hout|].
    unfold audio_callback. rewrite Hlen', Hout.
    destruct (decide _) as [_|Hn]; [|exfalso; apply Hn; vm_compute; intuition discriminate].
    eexists _, _. split; [reflexivity|].
    change (Z.to_nat (2 * 0)) with 0%nat. rewrite drop_0.
    change (Z.to_nat block_len) with (2 * 1024)%nat.
    rewrite bytes_of_take, take_ge by lia.
    split; [reflexivity|]. split; [|reflexivity].
    rewrite length_bytes_of, Hlen'. reflexivity.
Qed.

Lemma audio_callback_bounds_witness :
  (is_Some (audio_callback 2048 globals_init)
   -> out_sample globals_init + 2048 / 2 <= 1024) /\
  exists g,
    perform_all [PinChange 1; TimerFires 2000; AudioPull 2048; TimerFires 4000]
                globals_init = Some (tt, g) /\
    out_sample g = 0 /\
    exists stream g',
      audio_callback block_len g = Some (stream, g') /\
      stream = bytes_of (samples g) /\
      length stream = 2048%nat /\
      out_sample g' = 0.
Proof.
  apply (audio_callback_bounds 2048 globals_init
           [PinChange 1; TimerFires 2000; AudioPull 2048; TimerFires 4000]).
  - vm_compute. reflexivity.
  - repeat constructor.
Defined.

(** * Properties of the display conversion *)

Section Display.

#[local] Arguments Z.mul : simpl never.
#[local] Arguments Z.add : simpl never.

(** A loop whose body appends a chunk per index builds the chunks in
    index order. *)
Lemma for_loop_chunks {A} (chunk : Z -> list A) body n :
  forall i s,
    (forall k t, i <= k < i + Z.of_nat n -> body k t = Some (t ++ chunk k)) ->
    for_loop n i body s = Some (s ++ flat_map chunk (seqZ i (Z.of_nat n))).
Proof.
  induction n as [|n IH]; intros i s Hbody.
  - cbn [for_loop]. change (seqZ i (Z.of_nat 0)) with (@nil Z).
    cbn [flat_map]. now rewrite app_nil_r.
  - cbn [for_loop]. rewrite Hbody by lia.
    rewrite IH by (intros k t Hk; apply Hbody; lia).
    rewrite (seqZ_cons i) by lia. cbn [flat_map].
    replace (Z.succ i) with (i + 1) by lia.
    replace (Z.pred (Z.of_nat (S n))) with (Z.of_nat n) by lia.
    now rewrite <- app_assoc.
Qed.

Lemma lookup_chunks {A} (chunk : Z -> list A) (w : nat) ys :
  (forall y, length (chunk y) = w) ->
  forall r c : nat, (c < w)%nat ->
    flat_map chunk ys !! (r * w + c)%nat =
    match ys !! r with
    | Some y => chunk y !! c
    | None => None
    end.
Proof.
  intros Hw. induction ys as [|y ys IH]; intros r c Hc; [reflexivity|].
  cbn [flat_map]. destruct r as [|r].
  - cbn [lookup list_lookup]. rewrite lookup_app_l by (rewrite Hw; lia).
    f_equal.
  - rewrite lookup_app_r by (rewrite Hw; lia). rewrite Hw.
    replace (S r * w + c - w)%nat with (r * w + c)%nat by lia.
    cbn [lookup list_lookup]. now apply IH.
Qed.

Lemma flat_map_singleton {A B} (f : A -> B) l :
  flat_map (fun x => [f x]) l = map f l.
Proof.
  induction l as [|x l IH]; [reflexivity|]. cbn [flat_map map app].
  now rewrite IH.
Qed.

Lemma length_chunks {A} (chunk : Z -> list A) (w : nat) ys :
  (forall y, length (chunk y) = w) ->
  length (flat_map chunk ys) = (length ys * w)%nat.
Proof.
  intros Hw. induction ys as [|y ys IH]; [reflexivity|].
  cbn [flat_map length]. rewrite length_app, Hw, IH. lia.
Qed.

Lemma low_bit byte k :
  Z.land (Z.shiftr byte k) 1 <> 0 <-> Z.testbit byte k = true.
Proof.
  rewrite Z.testbit_odd, <- Z.bit0_odd.
  change 1 with (Z.ones 1). rewrite Z.land_ones by lia.
  change (2 ^ 1) with 2. rewrite <- Z.bit0_mod.
  destruct (Z.testbit (Z.shiftr byte k) 0); cbn [Z.b2z]; split; congruence.
Qed.

Variable display : ssd1306_t.
Hypothesis Hok : display_ok display.

Lemma vram_read_ok page column :
  0 <= page < 8 -> 0 <= column < 128 ->
  exists byte, vram_read display page column = Some byte.
Proof.
  intros Hp Hc. destruct Hok as [Hpages Hcols]. unfold vram_read.
  destruct (decide _) as [_|Hn]; [|lia].
  destruct (lookup_lt_is_Some_2 (vram display) (Z.to_nat page)) as [bytes Hb];
    [lia|].
  rewrite Hb. apply lookup_lt_is_Some_2.
  rewrite (proj1 (Forall_lookup _ _) Hcols _ _ Hb). lia.
Qed.

(** The colour the loop body computes for pixel (x, y). *)
Lemma put_pixel_colour y x pixels :
  0 <= y < 64 -> 0 <= x < 128 ->
  exists byte,
    vram_read display (y / 8) x = Some byte /\
    put_pixel display y x pixels =
    Some (pixels ++ [if Z.testbit byte (y mod 8) then white else black]).
Proof.
  intros Hy Hx.
  destruct (vram_read_ok (y / 8) x) as [byte Hb]; [lia | lia |].
  exists byte. split; [exact Hb|]. unfold put_pixel.
  rewrite Z.quot_div_nonneg by lia. rewrite Hb.
  change 7 with (Z.ones 3). rewrite Z.land_ones by lia. change (2 ^ 3) with 8.
  do 2 f_equal.
  destruct (decide _) as [H|H]; rewrite low_bit in H.
  - now rewrite H.
  - now destruct (Z.testbit byte (y mod 8)).
Qed.

End Display.

Lemma draw_display_frame display :
  display_ok display ->
  draw_display display =
  Some (flat_map (fun y => map (fun x => colour_at display x y) (seqZ 0 128))
                 (seqZ 0 64)).
Proof.
  intros Hok. unfold draw_display.
  rewrite (for_loop_chunks
             (fun y => map (fun x => colour_at display x y) (seqZ 0 128))).
  - reflexivity.
  - intros y t Hy.
    rewrite (for_loop_chunks (fun x => [colour_at display x y])).
    + now rewrite flat_map_singleton.
    + intros x s Hx.
      destruct (put_pixel_colour display Hok y x s) as (byte & Hb & Hput);
        [lia | lia |].
      rewrite Hput. unfold colour_at. now rewrite Hb.
Qed.

Lemma one_dot_frame :
  draw_display one_dot = Some (white :: replicate (Z.to_nat 8191) black).
Proof. vm_compute. reflexivity. Qed.

(** C4. For every frame buffer and every x in [0,128), y in [0,64), the
    frame [draw_display] builds has, at index y * 128 + x, white when bit
    [y mod 8] of the byte at page [y / 8], column [x] is 1 and black
    otherwise. For the frame buffer whose only set bit is bit 0 of page 0,
    column 0, pixel (0, 0) is white and every other pixel is black. *)
Theorem draw_display_pixels (display : ssd1306_t) (x y : Z) :
  display_ok display ->
  0 <= x < 128 -> 0 <= y < 64 ->
  (exists frame byte,
     draw_display display = Some frame /\
     Z.of_nat (length frame) = 8192 /\
     vram_read display (y / 8) x = Some byte /\
     (pixel frame x y = Some white <-> Z.testbit byte (y mod 8) = true) /\
     (pixel frame x y = Some black <-> Z.testbit byte (y mod 8) = false)) /\
  (exists frame,
     draw_display one_dot = Some frame /\
     pixel frame 0 0 = Some white /\
     (~ (x = 0 /\ y = 0) -> pixel frame x y = Some black)).
Proof.
  intros Hok Hx Hy. split.
  - destruct (vram_read_ok display Hok (y / 8) x) as [byte Hb]; [lia | lia |].
    eexists _, byte. split; [apply (draw_display_frame display Hok)|].
    split.
    { rewrite (length_chunks _ 128), length_seqZ; [reflexivity|].
      intros y'. now rewrite length_map, length_seqZ. }
    split; [exact Hb|].
    unfold pixel.
    replace (Z.to_nat (y * 128 + x)) with (Z.to_nat y * 128 + Z.to_nat x)%nat
      by lia.
    rewrite (lookup_chunks _ 128);
      [| intros y'; now rewrite length_map, length_seqZ | lia].
    rewrite lookup_seqZ_lt by lia.
    rewrite list_lookup_fmap, lookup_seqZ_lt by lia. cbn [fmap option_fmap option_map].
    replace (0 + Z.of_nat (Z.to_nat x)) with x by lia.
    replace (0 + Z.of_nat (Z.to_nat y)) with y by lia.
    unfold colour_at. rewrite Hb.
    destruct (Z.testbit byte (y mod 8)); unfold white, black;
      split; split; congruence.
  - exists (white :: replicate (Z.to_nat 8191) black).
    split; [exact one_dot_frame|]. split; [reflexivity|].
    intros Hne. unfold pixel.
    destruct (Z.to_nat (y * 128 + x)) as [|n] eqn:Hn; [exfalso; lia|].
    cbn [lookup list_lookup]. apply lookup_replicate_2. lia.
Qed.

Lemma draw_display_pixels_witness :
  (exists frame byte,
     draw_display one_dot = Some frame /\
     Z.of_nat (length frame) = 8192 /\
     vram_read one_dot (9 / 8) 5 = Some byte /\
     (pixel frame 5 9 = Some white <-> Z.testbit byte (9 mod 8) = true) /\
     (pixel frame 5 9 = Some black <-> Z.testbit byte (9 mod 8) = false)) /\
  (exists frame,
     draw_display one_dot = Some frame /\
     pixel frame 0 0 = Some white /\
     (~ (5 = 0 /\ 9 = 0) -> pixel frame 5 9 = Some black)).
Proof.
  apply (draw_display_pixels one_dot 5 9).
  - split; [reflexivity|]. repeat constructor.
  - lia.
  - lia.
Defined.

(** * Properties of the sampling cadence *)

Section Cadence.

#[local] Arguments Z.mul : simpl never.
#[local] Arguments Z.add : simpl never.
#[local] Arguments Z.modulo : simpl never.
#[local] Arguments Z.div : simpl never.
#[local] Arguments Nat.modulo : simpl never.
#[local] Arguments Nat.div : simpl never.

Lemma next_value : next = 2000.
Proof. reflexivity. Qed.

Lemma first_deadline_value : first_deadline = 2000.
Proof. reflexivity. Qed.

(** A timer call appends the sample of the level the last notification
    left. *)
Lemma timer_appends levels v when g :
  ring_of levels g -> speaker_value g = u8 v ->
  exists g',
    speaker_timer when g = Some (u64 (when + next), g') /\
    ring_of (levels ++ [v]) g' /\
    speaker_value g' = u8 v /\
    out_sample g' = out_sample g.
Proof.
  intros Hring Hv. destruct g as [sv smp cur out]. cbn in Hv. subst sv.
  destruct (produce_step levels v _ Hring) as (g' & Hp & Hr & Ho).
  unfold produce, bind, speaker_hook, ret in Hp.
  cbn [samples cur_sample out_sample speaker_value] in Hp.
  unfold speaker_timer in Hp |- *.
  cbn [samples cur_sample out_sample speaker_value] in Hp |- *.
  destruct (decide _) as [_|Hn]; [|discriminate].
  inversion Hp; subst g'; clear Hp.
  eexists. split; [reflexivity|]. split; [exact Hr|]. split; reflexivity.
Qed.

(** All deadlines up to the current cycle fire, one call each, and each
    call appends the held level. *)
Lemma fire_due_appends fuel :
  forall c g levels v,
    ring_of levels g -> speaker_value g = u8 v ->
    fired c = Z.of_nat (length levels) ->
    deadline c = next * (fired c + 1) ->
    0 <= cycle c -> cycle c + next < 2 ^ 64 ->
    next * fired c <= cycle c ->
    cycle c / next - fired c < Z.of_nat fuel ->
    exists c' g',
      fire_due fuel c g = Some (c', g') /\
      cycle c' = cycle c /\
      fired c' = cycle c / next /\
      deadline c' = next * (fired c' + 1) /\
      ring_of (levels ++ replicate (Z.to_nat (cycle c / next - fired c)) v) g' /\
      speaker_value g' = u8 v /\
      out_sample g' = out_sample g.
Proof.
  rewrite next_value. change (2 ^ 64) with 18446744073709551616.
  induction fuel as [|fuel IH];
    intros c g levels v Hring Hv Hf Hd Hc Hmax Hlow Hfuel;
    cbn [fire_due];
    destruct (decide (deadline c <= cycle c)) as [Hdue|Hnot];
    try (exfalso; lia).
  - destruct (timer_appends levels v (deadline c) g Hring Hv)
      as (g1 & Hcall & Hring1 & Hv1 & Hout1).
    unfold bind. rewrite Hcall.
    assert (Hwhen : u64 (deadline c + next) = 2000 * (fired c + 1 + 1)).
    { unfold u64. rewrite next_value, Hd.
      change (2 ^ 64) with 18446744073709551616. lia. }
    rewrite Hwhen.
    set (c1 := Clock (cycle c) (2000 * (fired c + 1 + 1)) (fired c + 1)).
    destruct (IH c1 g1 (levels ++ [v]) v Hring1 Hv1)
      as (c' & g' & Hrun & Hcyc & Hfired & Hdead & Hring' & Hv' & Hout').
    + cbn [fired c1]. rewrite length_app. cbn [length]. lia.
    + reflexivity.
    + exact Hc.
    + exact Hmax.
    + cbn [fired cycle c1]. lia.
    + cbn [fired cycle c1]. lia.
    + exists c', g'. cbn [cycle fired c1] in *.
      split; [exact Hrun|]. split; [exact Hcyc|]. split; [exact Hfired|].
      split; [exact Hdead|]. split; [|split; [exact Hv' | congruence]].
      replace (Z.to_nat (cycle c / 2000 - fired c))
        with (S (Z.to_nat (cycle c / 2000 - (fired c + 1)))) by lia.
      cbn [replicate]. rewrite <- app_assoc in Hring'. exact Hring'.
  - exists c, g. unfold ret.
    replace (cycle c / 2000 - fired c) with 0 by lia.
    cbn [Z.to_nat replicate]. rewrite app_nil_r.
    split; [reflexivity|]. split; [reflexivity|]. split; [lia|].
    split; [exact Hd|]. split; [exact Hring|]. split; [exact Hv | reflexivity].
Qed.

Lemma total_cycles_nonneg steps :
  Forall (fun i => 0 <= cycles i) steps -> 0 <= total_cycles steps.
Proof.
  intros H. unfold total_cycles. apply sum_counts_nonneg.
  apply Forall_map. exact H.
Qed.

(** The emulation appends the levels held at the deadlines it passes. *)
Lemma emulate_appends fuel steps :
  forall c g levels v,
    ring_of levels g -> speaker_value g = u8 v ->
    fired c = Z.of_nat (length levels) ->
    fired c = cycle c / next ->
    deadline c = next * (fired c + 1) ->
    0 <= cycle c ->
    Forall (fun i => 0 <= cycles i) steps ->
    cycle c + total_cycles steps + next < 2 ^ 64 ->
    (cycle c + total_cycles steps) / next < Z.of_nat fuel ->
    exists c' g',
      emulate fuel steps c g = Some (c', g') /\
      cycle c' = cycle c + total_cycles steps /\
      fired c' = cycle c' / next /\
      fired c' = Z.of_nat (length (levels ++ held_values v (cycle c) steps)) /\
      deadline c' = next * (fired c' + 1) /\
      ring_of (levels ++ held_values v (cycle c) steps) g' /\
      out_sample g' = out_sample g.
Proof.
  induction steps as [|i steps IH];
    intros c g levels v Hring Hv Hf Hfc Hd Hc Hpos Hmax Hfuel.
  - exists c, g. cbn [emulate held_values]. unfold ret, total_cycles.
    cbn [map sum_counts foldr]. rewrite Z.add_0_r, app_nil_r.
    split; [reflexivity|]. split; [reflexivity|]. split; [exact Hfc|].
    split; [exact Hf|].
    split; [exact Hd|]. split; [exact Hring | reflexivity].
  - apply Forall_cons in Hpos as [Hk Hpos].
    pose proof (total_cycles_nonneg steps Hpos) as Hrest.
    change (total_cycles (i :: steps))
      with (cycles i + total_cycles steps) in *.
    cbn [emulate held_values].
    set (v' := match pin_write i with Some x => x | None => v end).
    set (hook := match pin_write i with
                 | Some value => speaker_hook value
                 | None => ret tt
                 end).
    assert (Hhook : exists g1, hook g = Some (tt, g1) /\
              ring_of levels g1 /\ speaker_value g1 = u8 v' /\
              out_sample g1 = out_sample g).
    { subst hook v'. destruct (pin_write i) as [x|].
      - eexists. split; [reflexivity|].
        split; [exact Hring|]. split; reflexivity.
      - exists g. split; [reflexivity|].
        split; [exact Hring|]. split; [exact Hv | reflexivity]. }
    destruct Hhook as (g1 & Hh & Hring1 & Hv1 & Hout1).
    unfold bind at 1. rewrite Hh.
    set (c1 := Clock (cycle c + cycles i) (deadline c) (fired c)).
    rewrite next_value in *.
    destruct (fire_due_appends fuel c1 g1 levels v' Hring1 Hv1)
      as (c2 & g2 & Hfire & Hcyc & Hfired & Hdead & Hring2 & Hv2 & Hout2).
    + exact Hf.
    + cbn [deadline fired c1]. rewrite next_value. exact Hd.
    + cbn [cycle c1]. lia.
    + cbn [cycle c1]. rewrite next_value. lia.
    + cbn [cycle fired c1]. rewrite next_value. lia.
    + cbn [cycle fired c1]. rewrite next_value. lia.
    + cbn [cycle fired c1] in Hcyc, Hfired, Hring2. rewrite next_value in *.
      destruct (IH c2 g2
                  (levels ++ replicate
                     (Z.to_nat ((cycle c + cycles i) / 2000 - fired c)) v')
                  v' Hring2 Hv2)
        as (c' & g' & Hrun & Hcyc' & Hfired' & Hcount' & Hdead' & Hring' & Hout').
      * rewrite Hfired, length_app, length_replicate. lia.
      * rewrite Hfired, Hcyc. reflexivity.
      * exact Hdead.
      * lia.
      * exact Hpos.
      * rewrite Hcyc. lia.
      * rewrite Hcyc.
        replace (cycle c + cycles i + total_cycles steps)
          with (cycle c + (cycles i + total_cycles steps)) by lia.
        exact Hfuel.
      * exists c', g'. unfold bind. rewrite Hfire.
        split; [exact Hrun|]. split; [lia|]. split; [exact Hfired'|].
        rewrite Hcyc, <- app_assoc, Hfc in Hring', Hcount'.
        split; [exact Hcount'|].
        split; [exact Hdead'|]. split; [exact Hring' | congruence].
Qed.

(** C5. The speaker timer is registered 125 microseconds, i.e. 2000
    cycles of the 16 MHz virtual clock, after cycle 0 and each call returns
    its deadline plus 16000000 / 8000 = 2000 cycles. Emulating T seconds of
    virtual time, in instructions of whatever lengths and with whatever pin
    changes, makes exactly T * 8000 calls, each storing one sample: the
    samples appended are those of the levels held at the T * 8000 deadlines
    passed, the write cursor ends at T * 8000 modulo the capacity, and the
    ring holds the newest 1024 of the appended samples, each in the slot of
    its index modulo the capacity. No wall-clock quantity enters. *)
Theorem samples_per_emulated_second
    (T : Z) (steps : list instruction) (fuel : nat) :
  0 <= T ->
  Forall (fun i => 0 <= cycles i) steps ->
  total_cycles steps = cpu_frequency * T ->
  cpu_frequency * T + next < 2 ^ 64 ->
  audio_frequency * T < Z.of_nat fuel ->
  next = 2000 /\ first_deadline = 2000 /\
  exists c g,
    emulate fuel steps clock_init globals_init = Some (c, g) /\
    cycle c = cpu_frequency * T /\
    fired c = T * 8000 /\
    let appended := produced (held_values 0 0 steps) in
    Z.of_nat (length appended) = T * 8000 /\
    cur_sample g = (T * 8000) mod nsamples /\
    forall j : nat,
      (j < length appended)%nat -> (length appended <= j + 1024)%nat ->
      samples g !! (j mod 1024)%nat = appended !! j.
Proof.
  intros HT Hpos Hsum Hmax Hfuel.
  split; [reflexivity|]. split; [reflexivity|].
  unfold cpu_frequency, audio_frequency in *. rewrite next_value in Hmax.
  destruct (emulate_appends fuel steps clock_init globals_init [] 0)
    as (c & g & Hrun & Hcyc & Hfired & Hcount & _ & Hring & _).
  - apply ring_of_init.
  - reflexivity.
  - reflexivity.
  - reflexivity.
  - reflexivity.
  - cbn [cycle clock_init]. lia.
  - exact Hpos.
  - cbn [cycle clock_init]. rewrite next_value, Hsum. lia.
  - cbn [cycle clock_init]. rewrite next_value, Hsum. lia.
  - cbn [cycle clock_init app] in Hcyc, Hcount, Hring.
    rewrite Z.add_0_l in Hcyc. rewrite next_value in Hfired.
    destruct Hring as (_ & Hcur & _ & Hslots).
    assert (Hn : fired c = T * 8000) by lia.
    exists c, g. split; [exact Hrun|]. split; [lia|]. split; [exact Hn|].
    assert (Hl : length (produced (held_values 0 0 steps))
                 = length (held_values 0 0 steps))
      by (unfold produced; apply length_map).
    cbv zeta. rewrite !Hl.
    split; [lia|]. split.
    + unfold nsamples. rewrite Hcur. f_equal. lia.
    + exact Hslots.
Qed.

Lemma samples_per_emulated_second_witness :
  next = 2000 /\ first_deadline = 2000 /\
  exists c g,
    emulate (Z.to_nat 8001)
      [Instr (Some 1) 7000000; Instr (Some 0) 9000000]
      clock_init globals_init = Some (c, g) /\
    cycle c = cpu_frequency * 1 /\
    fired c = 1 * 8000 /\
    let appended :=
      produced (held_values 0 0
                  [Instr (Some 1) 7000000; Instr (Some 0) 9000000]) in
    Z.of_nat (length appended) = 1 * 8000 /\
    cur_sample g = (1 * 8000) mod nsamples /\
    forall j : nat,
      (j < length appended)%nat -> (length appended <= j + 1024)%nat ->
      samples g !! (j mod 1024)%nat = appended !! j.
Proof.
  apply (samples_per_emulated_second 1
           [Instr (Some 1) 7000000; Instr (Some 0) 9000000] (Z.to_nat 8001)).
  - lia.
  - repeat constructor; cbn [cycles]; lia.
  - reflexivity.
  - reflexivity.
  - reflexivity.
Defined.

End Cadence.

(** * Properties of the key dispatch and of the two loops *)

Section EventLoop.

Lemma dispatch_no_key event w :
  type event <> SDL_QUIT ->
  ~ (type event = SDL_KEYDOWN \/ type event = SDL_KEYUP) ->
  dispatch event w = w.
Proof.
  intros Hq Hk. unfold dispatch.
  destruct (decide _) as [|_]; [contradiction|].
  destruct (decide _) as [|_]; [contradiction | reflexivity].
Qed.

Lemma dispatch_shape event w :
  queue (dispatch event w) = queue w /\
  main_at (dispatch event w) = main_at w /\
  core_at (dispatch event w) = core_at w /\
  frames (dispatch event w) = frames w /\
  avr_runs (dispatch event w) = avr_runs w /\
  checks (dispatch event w) = checks w /\
  (running w = false -> running (dispatch event w) = false).
Proof.
  unfold dispatch, avr_raise_irq.
  repeat (destruct (decide _)); cbn; repeat split; auto.
Qed.

(** C6. A key-down or key-up event whose scancode is one of the six of
    the table raises the pin wired to its button, to 0 on key-down and to 1
    on key-up, and leaves every other pin as it was; an event with any
    other scancode changes nothing. The table maps six distinct scancodes
    to six distinct pins. *)
Theorem key_event_raises_pin (event : SDL_Event) (w : world) :
  type event = SDL_KEYDOWN \/ type event = SDL_KEYUP ->
  let level := if decide (type event = SDL_KEYDOWN) then 0 else 1 in
  match button_of (scancode event) with
  | Some b =>
      dispatch event w = avr_raise_irq b level w /\
      pins (dispatch event w) !! wiring b = Some level /\
      (forall p, p <> wiring b -> pins (dispatch event w) !! p = pins w !! p)
  | None => dispatch event w = w
  end /\
  length key_table = 6%nat /\
  NoDup (map fst key_table) /\
  NoDup (map (fun kb => wiring (snd kb)) key_table).
Proof.
  intros Hkey level. split.
  - assert (Hq : type event <> SDL_QUIT)
      by (destruct Hkey as [-> | ->]; discriminate).
    assert (Hraise : forall b,
      pins (avr_raise_irq b level w) !! wiring b = Some level /\
      (forall p, p <> wiring b ->
         pins (avr_raise_irq b level w) !! p = pins w !! p)).
    { intros b. unfold avr_raise_irq, set_pins. cbn [pins]. split.
      - apply lookup_insert_eq.
      - intros p Hp. now apply lookup_insert_ne. }
    unfold button_of, key_table, table_lookup, dispatch. fold level.
    destruct (decide (type event = SDL_QUIT)) as [|_]; [contradiction|].
    destruct (decide (type event = SDL_KEYDOWN \/ type event = SDL_KEYUP))
      as [_|]; [|contradiction].
    destruct (decide (scancode event = SDL_SCANCODE_UP)) as [->|H1].
    { cbn. split; [reflexivity | apply Hraise]. }
    destruct (decide (SDL_SCANCODE_UP = scancode event)) as [|_];
      [congruence|].
    destruct (decide (scancode event = SDL_SCANCODE_DOWN)) as [->|H2].
    { cbn. split; [reflexivity | apply Hraise]. }
    destruct (decide (SDL_SCANCODE_DOWN = scancode event)) as [|_];
      [congruence|].
    destruct (decide (scancode event = SDL_SCANCODE_LEFT)) as [->|H3].
    { cbn. split; [reflexivity | apply Hraise]. }
    destruct (decide (SDL_SCANCODE_LEFT = scancode event)) as [|_];
      [congruence|].
    destruct (decide (scancode event = SDL_SCANCODE_RIGHT)) as [->|H4].
    { cbn. split; [reflexivity | apply Hraise]. }
    destruct (decide (SDL_SCANCODE_RIGHT = scancode event)) as [|_];
      [congruence|].
    destruct (decide (scancode event = SDL_SCANCODE_A)) as [->|H5].
    { cbn. split; [reflexivity | apply Hraise]. }
    destruct (decide (SDL_SCANCODE_A = scancode event)) as [|_];
      [congruence|].
    destruct (decide (scancode event = SDL_SCANCODE_S)) as [->|H6].
    { cbn. split; [reflexivity | apply Hraise]. }
    destruct (decide (SDL_SCANCODE_S = scancode event)) as [|_];
      [congruence|].
    reflexivity.
  - split; [reflexivity|]. split.
    + apply (bool_decide_unpack _). vm_compute. exact I.
    + apply (bool_decide_unpack _). vm_compute. exact I.
Qed.

Lemma key_event_raises_pin_witness :
  let event := Event SDL_KEYDOWN SDL_SCANCODE_UP in
  let w := boot ∅ [] in
  let level := if decide (type event = SDL_KEYDOWN) then 0 else 1 in
  match button_of (scancode event) with
  | Some b =>
      dispatch event w = avr_raise_irq b level w /\
      pins (dispatch event w) !! wiring b = Some level /\
      (forall p, p <> wiring b -> pins (dispatch event w) !! p = pins w !! p)
  | None => dispatch event w = w
  end /\
  length key_table = 6%nat /\
  NoDup (map fst key_table) /\
  NoDup (map (fun kb => wiring (snd kb)) key_table).
Proof.
  apply (key_event_raises_pin (Event SDL_KEYDOWN SDL_SCANCODE_UP) (boot ∅ [])).
  left. reflexivity.
Defined.

(** ** Shutdown *)

Lemma step_core_winds_down w w' :
  running w = false -> step_core w = Some w' ->
  winds_down w w' /\ (core_left w' < core_left w)%nat.
Proof.
  intros Hstop Hstep. unfold step_core in Hstep.
  destruct w as [r p q f a c cpc mpc]. cbn in Hstop. subst r.
  destruct cpc; cbn in Hstep; inversion Hstep; subst w'; clear Hstep;
    unfold winds_down, shutdown_bound, core_left, main_left,
      avr_runs_due, frames_due; cbn;
    (split; [repeat split; try lia; auto | lia]).
Qed.

Lemma step_main_winds_down w w' :
  running w = false -> step_main w = Some w' ->
  winds_down w w' /\ (main_left w' < main_left w)%nat.
Proof.
  intros Hstop Hstep. unfold step_main in Hstep.
  destruct (main_at w) eqn:Hpc.
  - inversion Hstep; subst w'; clear Hstep. rewrite Hstop.
    unfold winds_down, shutdown_bound, core_left, main_left,
      avr_runs_due, frames_due. cbn. rewrite Hpc.
    split; [repeat split; try lia; auto | lia].
    intros [H|H]; [discriminate | now right].
  - destruct (queue w) as [|event rest] eqn:Hq;
      inversion Hstep; subst w'; clear Hstep.
    + unfold winds_down, shutdown_bound, core_left, main_left,
        avr_runs_due, frames_due. cbn. rewrite Hpc, Hq. cbn.
      split; [repeat split; try lia; auto | lia].
    + pose proof (dispatch_shape event (set_queue rest w))
        as (Hd1 & Hd2 & Hd3 & Hd4 & Hd5 & _ & Hd7).
      cbn in Hd1, Hd2, Hd3, Hd4, Hd5, Hd7.
      unfold winds_down, shutdown_bound, core_left, main_left,
        avr_runs_due, frames_due.
      rewrite Hd1, Hd2, Hd3, Hd4, Hd5, Hpc, Hq. cbn [length].
      split; [repeat split; try lia; auto | lia].
  - inversion Hstep; subst w'; clear Hstep.
    unfold winds_down, shutdown_bound, core_left, main_left,
      avr_runs_due, frames_due. cbn. rewrite Hpc.
    split; [repeat split; try lia; auto | lia].
    intros [H|H]; [discriminate | now right].
  - destruct (core_at w) eqn:Hc; try discriminate.
    inversion Hstep; subst w'; clear Hstep.
    unfold winds_down, shutdown_bound, core_left, main_left,
      avr_runs_due, frames_due. cbn. rewrite Hpc, Hc.
    split; [repeat split; try lia; auto | lia].
    intros [H|H]; [discriminate | now right].
  - discriminate.
Qed.

Lemma step_winds_down t w w' :
  running w = false -> step t w = Some w' -> winds_down w w'.
Proof.
  intros Hstop Hstep. destruct t; cbn [step] in Hstep.
  - now apply step_core_winds_down.
  - now apply step_main_winds_down.
Qed.

Lemma settles_refl w : running w = false -> settles w w.
Proof. intros H. unfold settles. repeat split; auto. Qed.

Lemma settles_trans w1 w2 w3 : settles w1 w2 -> settles w2 w3 -> settles w1 w3.
Proof.
  intros (A1 & A2 & A3 & A4 & A5 & A6) (B1 & B2 & B3 & B4 & B5 & B6).
  unfold settles. repeat split; try lia; auto.
Qed.

Lemma exec_step_settles t w :
  running w = false -> settles w (exec_step w t).
Proof.
  intros Hstop. unfold exec_step.
  destruct (step t w) as [w'|] eqn:Hstep; [|now apply settles_refl].
  destruct (step_winds_down t w w' Hstop Hstep)
    as (H1 & H2 & H3 & _ & H5 & H6 & H7).
  unfold settles. repeat split; auto.
Qed.

Lemma exec_settles schedule :
  forall w, running w = false -> settles w (exec schedule w).
Proof.
  induction schedule as [|t schedule IH]; intros w Hstop.
  - now apply settles_refl.
  - cbn [exec fold_left].
    pose proof (exec_step_settles t w Hstop) as Hone.
    eapply settles_trans; [exact Hone|].
    apply IH. apply Hone.
Qed.

Lemma exec_app s1 s2 w : exec (s1 ++ s2) w = exec s2 (exec s1 w).
Proof. unfold exec. apply fold_left_app. Qed.

(** In a round where the core thread runs, [run_core] gets closer to its
    return. *)
Lemma round_core round :
  forall w, running w = false -> existsb is_core round = true ->
    (0 < core_left w)%nat ->
    (core_left (exec round w) < core_left w)%nat.
Proof.
  induction round as [|t round IH]; intros w Hstop Hin Hpos; [discriminate|].
  cbn [exec fold_left]. fold (exec round (exec_step w t)).
  pose proof (exec_step_settles t w Hstop) as (Hs & Hc & _).
  destruct t.
  - assert ((core_left (exec_step w Core) < core_left w)%nat) as Hlt.
    { unfold exec_step. cbn [step].
      destruct (step_core w) as [w'|] eqn:Hstep.
      - now apply step_core_winds_down.
      - unfold step_core in Hstep. unfold core_left in Hpos.
        destruct (core_at w); try discriminate; lia. }
    pose proof (exec_settles round _ Hs) as (_ & Hc' & _). lia.
  - cbn [existsb is_core orb] in Hin.
    destruct (decide (0 < core_left (exec_step w Main))%nat) as [Hp|Hz].
    + specialize (IH _ Hs Hin Hp). lia.
    + pose proof (exec_settles round _ Hs) as (_ & Hc' & _). lia.
Qed.

(** Once [run_core] has returned, a round where the main thread runs
    brings [main] closer to its return. *)
Lemma round_main round :
  forall w, running w = false -> existsb is_main round = true ->
    core_left w = 0%nat -> (0 < main_left w)%nat ->
    (main_left (exec round w) < main_left w)%nat.
Proof.
  induction round as [|t round IH]; intros w Hstop Hin Hcore Hpos;
    [discriminate|].
  cbn [exec fold_left]. fold (exec round (exec_step w t)).
  pose proof (exec_step_settles t w Hstop) as (Hs & Hc & Hm & _).
  destruct t.
  - cbn [existsb is_main orb] in Hin.
    destruct (decide (0 < main_left (exec_step w Core))%nat) as [Hp|Hz].
    + specialize (IH _ Hs Hin ltac:(lia) Hp). lia.
    + pose proof (exec_settles round _ Hs) as (_ & _ & Hm' & _). lia.
  - assert ((main_left (exec_step w Main) < main_left w)%nat) as Hlt.
    { unfold exec_step. cbn [step].
      destruct (step_main w) as [w'|] eqn:Hstep.
      - now apply step_main_winds_down.
      - unfold step_main in Hstep. unfold main_left in Hpos.
        unfold core_left in Hcore.
        destruct (main_at w); try discriminate; try lia.
        destruct (queue w); discriminate.
        destruct (core_at w); try discriminate; lia. }
    pose proof (exec_settles round _ Hs) as (_ & _ & Hm' & _). lia.
Qed.

Lemma round_bound round w :
  running w = false -> fair_round round = true ->
  (0 < shutdown_bound w)%nat ->
  (shutdown_bound (exec round w) < shutdown_bound w)%nat.
Proof.
  intros Hstop Hfair Hpos. unfold fair_round in Hfair.
  apply andb_prop in Hfair as [Hc Hm].
  pose proof (exec_settles round w Hstop) as (_ & Hcl & Hml & _).
  unfold shutdown_bound in *.
  destruct (decide (0 < core_left w)%nat) as [Hcp|Hcz].
  - pose proof (round_core round w Hstop Hc Hcp). lia.
  - pose proof (round_main round w Hstop Hm ltac:(lia) ltac:(lia)). lia.
Qed.

Lemma rounds_finish rounds :
  forall w, running w = false -> forallb fair_round rounds = true ->
    (shutdown_bound w <= length rounds)%nat ->
    shutdown_bound (exec (concat rounds) w) = 0%nat.
Proof.
  induction rounds as [|round rounds IH]; intros w Hstop Hfair Hlen.
  - cbn in Hlen |- *. lia.
  - cbn [forallb] in Hfair. apply andb_prop in Hfair as [Hr Hrs].
    cbn [concat]. rewrite exec_app.
    pose proof (exec_settles round w Hstop) as Hset.
    destruct Hset as (Hs & Hcl & Hml & _).
    apply IH; [exact Hs | exact Hrs |].
    cbn [length] in Hlen.
    destruct (decide (0 < shutdown_bound w)%nat) as [Hp|Hz].
    + pose proof (round_bound round w Hstop Hr Hp). lia.
    + unfold shutdown_bound in *. lia.
Qed.

Lemma exec_step_checks t w : checks_match w -> checks_match (exec_step w t).
Proof.
  unfold checks_match, exec_step. intros H.
  destruct t; cbn [step].
  - unfold step_core. destruct (core_at w) eqn:Hc; cbn; try exact H.
    + destruct (running w); cbn; lia.
    + lia.
    + now rewrite Hc.
  - unfold step_main. destruct (main_at w) eqn:Hm; cbn; try exact H.
    + destruct (queue w) as [|event rest]; cbn; [exact H|].
      pose proof (dispatch_shape event (set_queue rest w))
        as (_ & _ & Hd3 & _ & Hd5 & Hd6 & _).
      rewrite Hd3, Hd5, Hd6. exact H.
    + destruct (core_at w) eqn:Hc; cbn; rewrite ?Hc; exact H.
Qed.

Lemma exec_checks schedule :
  forall w, checks_match w -> checks_match (exec schedule w).
Proof.
  induction schedule as [|t schedule IH]; intros w H; [exact H|].
  cbn [exec fold_left]. apply IH. now apply exec_step_checks.
Qed.

(** C7. Under interleaved execution of the two threads, with [running]
    read and written atomically, [avr_run] and [draw_display] returning and
    the pending events being finitely many: [run_core] tests the flag once
    before each call of [avr_run] and once more to leave. Once the flag is
    false, [run_core] completes at most the call of [avr_run] it is in and
    none if it is at its test; the loop of [main] finishes the iteration it
    is in, draining the pending events and drawing once, and starts no
    other. Under every schedule that keeps giving both threads their turn
    both loops return and [join] returns. The quit event is what clears
    the flag. *)
Theorem cooperative_shutdown
    (w : world) (schedule : list thread) (rounds : list (list thread)) :
  running w = false ->
  forallb fair_round rounds = true ->
  (shutdown_bound w <= length rounds)%nat ->
  (avr_runs (exec schedule w) <= avr_runs w + 1)%nat /\
  (core_at w = CoreTest -> avr_runs (exec schedule w) = avr_runs w) /\
  (frames (exec schedule w) <= frames w + 1)%nat /\
  running (exec schedule w) = false /\
  (let w' := exec (concat rounds) w in
   core_at w' = CoreExited /\ main_at w' = MainExited /\
   avr_runs w' = (avr_runs w + avr_runs_due w)%nat /\
   frames w' = (frames w + frames_due w)%nat /\
   (main_at w = MainPoll -> queue w' = [])) /\
  (forall p q, checks_match (exec schedule (boot p q))) /\
  (forall w0 code rest,
     main_at w0 = MainPoll -> queue w0 = Event SDL_QUIT code :: rest ->
     exists w1, step Main w0 = Some w1 /\ running w1 = false /\
                main_at w1 = MainPoll /\ queue w1 = rest).
Proof.
  intros Hstop Hfair Hlen.
  pose proof (exec_settles schedule w Hstop) as (Hs & _ & _ & Ha & Hf & _).
  assert (Hdue : (avr_runs_due w <= 1)%nat)
    by (unfold avr_runs_due; destruct (core_at w); lia).
  assert (Hfdue : (frames_due w <= 1)%nat)
    by (unfold frames_due; destruct (main_at w); lia).
  split; [lia|]. split.
  { intros Hc. unfold avr_runs_due in Ha. rewrite Hc in Ha.
    pose proof (exec_settles schedule w Hstop) as (_ & Hcl & _).
    unfold core_left in Hcl. rewrite Hc in Hcl.
    destruct (core_at (exec schedule w)); lia. }
  split; [lia|]. split; [exact Hs|]. split; [|split].
  - pose proof (rounds_finish rounds w Hstop Hfair Hlen) as Hzero.
    pose proof (exec_settles (concat rounds) w Hstop)
      as (_ & _ & _ & Ha' & Hf' & Hq').
    cbv zeta. set (w' := exec (concat rounds) w) in *.
    unfold shutdown_bound, core_left, main_left in Hzero.
    assert (Hc : core_at w' = CoreExited) by (destruct (core_at w'); lia || reflexivity).
    assert (Hm : main_at w' = MainExited) by (destruct (main_at w'); lia || reflexivity).
    unfold avr_runs_due at 1 in Ha'. unfold frames_due at 1 in Hf'.
    rewrite Hc in Ha'. rewrite Hm in Hf'.
    split; [exact Hc|]. split; [exact Hm|]. split; [lia|]. split; [lia|].
    intros Hpoll. destruct Hq' as [H|H]; [now left | congruence | exact H].
  - intros p q. apply exec_checks. reflexivity.
  - intros w0 code rest Hpc Hq. cbn [step]. unfold step_main.
    rewrite Hpc, Hq. eexists. split; [reflexivity|].
    unfold dispatch. cbn [type].
    destruct (decide (SDL_QUIT = SDL_QUIT)) as [_|Hn]; [|contradiction].
    cbn. now rewrite Hpc.
Qed.

Lemma cooperative_shutdown_witness :
  let w := World false ∅ [Event SDL_KEYUP SDL_SCANCODE_A] 3 7 8 CoreStep MainPoll in
  let schedule := [Main; Core; Core; Main] in
  let rounds := replicate 7 [Main; Core] in
  (avr_runs (exec schedule w) <= avr_runs w + 1)%nat /\
  (core_at w = CoreTest -> avr_runs (exec schedule w) = avr_runs w) /\
  (frames (exec schedule w) <= frames w + 1)%nat /\
  running (exec schedule w) = false /\
  (let w' := exec (concat rounds) w in
   core_at w' = CoreExited /\ main_at w' = MainExited /\
   avr_runs w' = (avr_runs w + avr_runs_due w)%nat /\
   frames w' = (frames w + frames_due w)%nat /\
   (main_at w = MainPoll -> queue w' = [])) /\
  (forall p q, checks_match (exec schedule (boot p q))) /\
  (forall w0 code rest,
     main_at w0 = MainPoll -> queue w0 = Event SDL_QUIT code :: rest ->
     exists w1, step Main w0 = Some w1 /\ running w1 = false /\
                main_at w1 = MainPoll /\ queue w1 = rest).
Proof.
  apply (cooperative_shutdown
           (World false ∅ [Event SDL_KEYUP SDL_SCANCODE_A] 3 7 8 CoreStep MainPoll)
           [Main; Core; Core; Main] (replicate 7 [Main; Core])).
  - reflexivity.
  - reflexivity.
  - vm_compute. lia.
Defined.

End EventLoop.

(** * Properties of the start-up path *)

Section Startup.

Open Scope string_scope.

Lemma starts_with_spec b : forall a,
  starts_with a b = true <-> exists rest, a = b +:+ rest.
Proof.
  induction b as [|cb b IH]; intros a; cbn [starts_with].
  - split; [intros _; now exists a | reflexivity].
  - destruct a as [|ca a].
    + split; [discriminate | intros [rest H]; discriminate H].
    + destruct (Ascii.eqb ca cb) eqn:Hc.
      * apply Ascii.eqb_eq in Hc. subst cb. rewrite IH. split.
        -- intros [rest ->]. now exists rest.
        -- intros [rest H]. cbn in H. injection H as H. now exists rest.
      * apply Ascii.eqb_neq in Hc. split; [discriminate|].
        intros [rest H]. cbn in H. injection H as H1 H2. contradiction.
Qed.

Lemma strstr_spec needle : forall haystack,
  is_Some (strstr haystack needle) <-> contains haystack needle.
Proof.
  unfold contains.
  induction haystack as [|c haystack IH]; cbn [strstr].
  - destruct (starts_with "" needle) eqn:Hs.
    + apply starts_with_spec in Hs as [rest Hs]. split.
      * intros _. exists "", rest. exact Hs.
      * intros _. now eexists.
    + split; [intros [x Hx]; discriminate Hx|].
      intros (before & after & H).
      destruct before; [|discriminate H]. cbn in H.
      assert (starts_with "" needle = true) as Ht
        by (apply starts_with_spec; now exists after).
      congruence.
  - destruct (starts_with (String c haystack) needle) eqn:Hs.
    + apply starts_with_spec in Hs as [rest Hs]. split.
      * intros _. exists "", rest. exact Hs.
      * intros _. now eexists.
    + rewrite IH. split.
      * intros (before & after & ->). now exists (String c before), after.
      * intros (before & after & H). destruct before as [|c' before].
        -- cbn in H.
           assert (starts_with (String c haystack) needle = true) as Ht
             by (apply starts_with_spec; now exists after).
           congruence.
        -- cbn in H. injection H as _ H. now exists before, after.
Qed.

Lemma append_assoc (a b c : string) : (a +:+ b) +:+ c = a +:+ (b +:+ c).
Proof.
  induction a as [|x a IH]; [reflexivity|].
  change (String x ((a +:+ b) +:+ c) = String x (a +:+ (b +:+ c))).
  now rewrite IH.
Qed.

Lemma append_nil_r (a : string) : a +:+ "" = a.
Proof.
  induction a as [|x a IH]; [reflexivity|].
  change (String x (a +:+ "") = String x a). now rewrite IH.
Qed.

Lemma ends_in_contains path suffix : ends_in path suffix -> contains path suffix.
Proof.
  intros [stem ->]. exists stem, "". now rewrite append_nil_r.
Qed.

(** C8, as the code has it. The path is loaded as an ELF image exactly
    when it contains ".elf" somewhere, which it does when it ends in
    ".elf", and as an Intel-hex image otherwise. *)
Theorem loader_by_substring (path : string) :
  (load_firmware path = elf_loaded path <-> contains path ".elf") /\
  (load_firmware path = ihex_loaded path <-> ~ contains path ".elf") /\
  (ends_in path ".elf" -> load_firmware path = elf_loaded path).
Proof.
  assert (Hiff : load_firmware path = elf_loaded path <-> contains path ".elf").
  { rewrite <- strstr_spec. unfold load_firmware, elf_loaded.
    destruct (strstr path ".elf") as [tail|].
    - split; [intros _; now eexists | reflexivity].
    - split; [discriminate | intros [x Hx]; discriminate Hx]. }
  split; [exact Hiff|]. split.
  - rewrite <- strstr_spec. unfold load_firmware, ihex_loaded.
    destruct (strstr path ".elf") as [tail|].
    + split; [discriminate | intros Hn; exfalso; apply Hn; now eexists].
    + split; [intros _ [x Hx]; discriminate Hx | reflexivity].
  - intros Hend. apply Hiff. now apply ends_in_contains.
Qed.

Lemma loader_by_substring_witness :
  (load_firmware "game.elf" = elf_loaded "game.elf"
     <-> contains "game.elf" ".elf") /\
  (load_firmware "game.elf" = ihex_loaded "game.elf"
     <-> ~ contains "game.elf" ".elf") /\
  (ends_in "game.elf" ".elf" -> load_firmware "game.elf" = elf_loaded "game.elf").
Proof. apply (loader_by_substring "game.elf"). Defined.

(** C8 as stated fails: "game.elf.hex" does not end in ".elf" and is
    loaded as an ELF image. *)
Lemma loader_suffix_counterexample :
  ~ ends_in "game.elf.hex" ".elf" /\
  load_firmware "game.elf.hex" = elf_loaded "game.elf.hex".
Proof.
  split; [|reflexivity].
  intros [stem H].
  repeat (destruct stem as [|? stem]; vm_compute in H;
          [discriminate H | first [discriminate H | injection H as _ H]]).
Qed.

Lemma no_usage_bind {A B} (m : Init A) (k : A -> Init B) :
  no_usage m -> (forall a, no_usage (k a)) -> no_usage (init_bind m k).
Proof.
  intros [Hm1 Hm2] Hk. unfold init_bind.
  destruct m as [t [o|a]].
  { split; [exact Hm1|]. intros code Heq. apply (Hm2 code).
    cbn [snd] in *. injection Heq as ->. reflexivity. }
  destruct (k a) as [t' r] eqn:Hka. specialize (Hk a). rewrite Hka in Hk.
  destruct Hk as [Hk1 Hk2]. unfold no_usage. cbn [fst snd] in *.
  split; [|exact Hk2].
  rewrite existsb_app, Hm1, Hk1. reflexivity.
Qed.

Lemma no_usage_effect e : is_usage e = false -> no_usage (perform_effect e).
Proof.
  intros He. unfold perform_effect, no_usage. cbn. rewrite He.
  split; [reflexivity | discriminate].
Qed.

Lemma no_usage_require ok what : no_usage (require ok what).
Proof.
  unfold require, init_ret, throw, no_usage.
  destruct ok; cbn; (split; [reflexivity | discriminate]).
Qed.

Lemma no_usage_load path : no_usage (load_firmware path).
Proof.
  unfold load_firmware.
  destruct (strstr path ".elf"); cbn; (split; [reflexivity | discriminate]).
Qed.

Lemma no_usage_effects es :
  forallb (fun e => negb (is_usage e)) es = true -> no_usage (perform_effects es).
Proof.
  induction es as [|e es IH]; cbn [forallb perform_effects]; intros H.
  - split; [reflexivity | discriminate].
  - apply andb_prop in H as [He Hes].
    apply no_usage_bind; [|intros _; now apply IH].
    apply no_usage_effect. now destruct (is_usage e).
Qed.

Lemma no_usage_initialize path h : no_usage (initialize path h).
Proof.
  unfold initialize.
  repeat (apply no_usage_bind; [|intros _]);
    try apply no_usage_require; try apply no_usage_load;
    try (apply no_usage_effects; reflexivity);
    try (split; [reflexivity | discriminate]).
Qed.

(** C9. Without a firmware path, that is with [argc <= 1], [main] writes
    the usage message and returns 1, having done nothing else. With a path
    it writes no usage message and does not return 1; what it does depends
    on the path alone, not on the program name nor on arguments after the
    path. *)
Theorem usage_error (argv : list string) (h : host) :
  (Z.of_nat (length argv) <= 1 ->
   main argv h = ([Usage (argv !! 0%nat)], Return 1)) /\
  (1 < Z.of_nat (length argv) ->
   exists argv0 path rest,
     argv = argv0 :: path :: rest /\
     main argv h = main [""; path] h /\
     existsb is_usage (fst (main argv h)) = false /\
     (forall code, snd (main argv h) <> Return code)).
Proof.
  split.
  - intros Hargc. unfold main.
    destruct (decide _) as [_|Hn]; [reflexivity | contradiction].
  - intros Hargc.
    destruct argv as [|argv0 [|path rest]]; cbn [length] in Hargc; try lia.
    exists argv0, path, rest. split; [reflexivity|].
    unfold main. cbn [lookup list_lookup].
    destruct (decide _) as [Hle|_]; [cbn [length] in Hle; lia|].
    destruct (decide _) as [Hle|_]; [cbn [length] in Hle; lia|].
    split; [reflexivity|].
    pose proof (no_usage_initialize path h) as [Htrace Hout].
    destruct (initialize path h) as [t [o|u]]; cbn [fst snd] in *.
    + split; [exact Htrace|]. intros code Heq. apply (Hout code). now subst o.
    + split; [exact Htrace | discriminate].
Qed.

Lemma usage_error_witness :
  (Z.of_nat (length ["simarduboy"]) <= 1 ->
   main ["simarduboy"] (Host true true true true true true true 8000)
     = ([Usage (["simarduboy"] !! 0%nat)], Return 1)) /\
  (1 < Z.of_nat (length ["simarduboy"]) ->
   exists argv0 path rest,
     ["simarduboy"] = argv0 :: path :: rest /\
     main ["simarduboy"] (Host true true true true true true true 8000)
       = main [""; path] (Host true true true true true true true 8000) /\
     existsb is_usage
       (fst (main ["simarduboy"] (Host true true true true true true true 8000)))
       = false /\
     (forall code,
        snd (main ["simarduboy"] (Host true true true true true true true 8000))
          <> Return code)).
Proof.
  apply (usage_error ["simarduboy"]
           (Host true true true true true true true 8000)).
Defined.

End Startup.

(** * Further properties of the ring buffer *)

Section RingBufferMore.

#[local] Arguments Nat.modulo : simpl never.
#[local] Arguments Nat.div : simpl never.
#[local] Arguments Z.modulo : simpl never.
#[local] Arguments Z.div : simpl never.
#[local] Arguments Z.mul : simpl never.
#[local] Arguments Z.add : simpl never.

Lemma sample_of_low_bits value : sample_of (u8 value) = (value mod 4) * 0x4000.
Proof.
  unfold sample_of, u16, u8. change (2 ^ 8) with 256.
  change (2 ^ 16) with 65536. lia.
Qed.

(** X1. Whatever value the pin notification carries, the sample the next
    timer call stores is its two low bits times 0x4000: the value is
    narrowed to eight bits and the product to sixteen. *)
Theorem notified_value_low_bits (value when : Z) (g : globals) :
  0 <= cur_sample g < Z.of_nat (length (samples g)) ->
  exists g',
    (run speaker_hook value then speaker_timer when) g
      = Some (u64 (when + next), g') /\
    samples g' !! Z.to_nat (cur_sample g) = Some ((value mod 4) * 0x4000) /\
    forall i, i <> Z.to_nat (cur_sample g) -> samples g' !! i = samples g !! i.
Proof.
  intros Hcur. unfold bind, speaker_hook, speaker_timer.
  cbn [samples cur_sample speaker_value out_sample].
  destruct (decide _) as [_|Hn]; [|contradiction].
  eexists. split; [reflexivity|]. cbn [samples]. split.
  - rewrite list_lookup_insert_eq by lia. now rewrite sample_of_low_bits.
  - intros i Hi. now rewrite list_lookup_insert_ne.
Qed.

Lemma notified_value_low_bits_witness :
  exists g',
    (run speaker_hook 258 then speaker_timer 2000) globals_init
      = Some (u64 (2000 + next), g') /\
    samples g' !! Z.to_nat (cur_sample globals_init)
      = Some ((258 mod 4) * 0x4000) /\
    forall i, i <> Z.to_nat (cur_sample globals_init) ->
      samples g' !! i = samples globals_init !! i.
Proof.
  apply (notified_value_low_bits 258 2000 globals_init).
  vm_compute. split; [discriminate | reflexivity].
Defined.

Lemma globals_ok_init : globals_ok globals_init.
Proof.
  unfold globals_ok, globals_init.
  cbn [samples cur_sample out_sample speaker_value].
  rewrite length_replicate.
  split; [reflexivity|]. split; [lia|]. split; [lia|]. split; [lia|].
  apply Forall_replicate. lia.
Qed.

(** One event keeps the globals in shape and moves the cursors by what it
    asks for. *)
Lemma perform_ok e g g' :
  globals_ok g -> perform e g = Some (tt, g') ->
  globals_ok g' /\
  cur_sample g' = (cur_sample g + timer_calls [e]) mod 1024 /\
  out_sample g' = (out_sample g + samples_pulled [e]) mod 1024.
Proof.
  intros (Hlen & Hcur & Hout & Hval & Hrange) Hrun.
  destruct e as [v|w|len]; cbn [perform timer_calls samples_pulled] in *.
  - unfold speaker_hook in Hrun. inversion Hrun; subst g'; clear Hrun.
    unfold globals_ok. cbn [samples cur_sample out_sample speaker_value].
    unfold u8. change (2 ^ 8) with 256.
    repeat split; try lia; auto.
  - unfold bind, speaker_timer, ret in Hrun. rewrite Hlen in Hrun.
    change (Z.of_nat 1024) with 1024 in Hrun.
    destruct (decide _) as [_|Hn]; [|discriminate].
    inversion Hrun; subst g'; clear Hrun.
    unfold globals_ok. cbn [samples cur_sample out_sample speaker_value].
    rewrite length_insert. unfold u16, nsamples. change (2 ^ 16) with 65536.
    repeat split; try lia; auto.
    apply Forall_insert; [exact Hrange | apply sample_of_range].
  - unfold bind, audio_callback, ret in Hrun. rewrite Hlen in Hrun.
    change (Z.of_nat 1024) with 1024 in Hrun.
    destruct (decide _) as [Hok|Hn]; [|discriminate].
    inversion Hrun; subst g'; clear Hrun.
    unfold globals_ok. cbn [samples cur_sample out_sample speaker_value].
    unfold u16, nsamples. change (2 ^ 16) with 65536.
    repeat split; try lia; auto.
Qed.

Lemma timer_calls_app es1 es2 :
  timer_calls (es1 ++ es2) = timer_calls es1 + timer_calls es2.
Proof.
  induction es1 as [|[v|w|len] es1 IH]; cbn [app timer_calls]; lia.
Qed.

Lemma samples_pulled_app es1 es2 :
  samples_pulled (es1 ++ es2) = samples_pulled es1 + samples_pulled es2.
Proof.
  induction es1 as [|[v|w|len] es1 IH]; cbn [app samples_pulled]; lia.
Qed.

Lemma perform_all_ok es :
  forall g g',
    globals_ok g -> perform_all es g = Some (tt, g') ->
    globals_ok g' /\
    cur_sample g' = (cur_sample g + timer_calls es) mod 1024 /\
    out_sample g' = (out_sample g + samples_pulled es) mod 1024.
Proof.
  induction es as [|e es IH]; intros g g' Hg Hrun.
  - cbn [perform_all] in Hrun. unfold ret in Hrun.
    inversion Hrun; subst g'. cbn [timer_calls samples_pulled].
    destruct Hg as (Hlen & Hcur & Hout & Hrest).
    split; [now repeat split|]. lia.
  - cbn [perform_all] in Hrun. unfold bind in Hrun.
    destruct (perform e g) as [[[] g1]|] eqn:He; [|discriminate].
    destruct (perform_ok e g g1 Hg He) as (Hg1 & Hc1 & Ho1).
    destruct (IH g1 g' Hg1 Hrun) as (Hg' & Hc' & Ho').
    split; [exact Hg'|].
    change (e :: es) with ([e] ++ es).
    rewrite timer_calls_app, samples_pulled_app, Hc', Ho', Hc1, Ho1.
    split; lia.
Qed.

(** X2. Whatever the pin changes, timer calls and pulls were, as long as
    none was undefined, the array keeps its 1024 sixteen-bit entries, both
    cursors index it, and the next timer call is defined: the producer
    never writes outside the array. *)
Theorem producer_stays_in_bounds (es : list audio_event) (g : globals) (when : Z) :
  perform_all es globals_init = Some (tt, g) ->
  globals_ok g /\
  exists g', speaker_timer when g = Some (u64 (when + next), g') /\
             globals_ok g'.
Proof.
  intros Hrun.
  destruct (perform_all_ok es globals_init g globals_ok_init Hrun) as (Hg & _).
  split; [exact Hg|].
  pose proof Hg as (Hlen & Hcur & _).
  unfold speaker_timer. rewrite Hlen. change (Z.of_nat 1024) with 1024.
  destruct (decide _) as [_|Hn]; [|contradiction].
  eexists. split; [reflexivity|].
  apply (perform_ok (TimerFires when) g); [exact Hg|].
  cbn [perform]. unfold bind, speaker_timer, ret. rewrite Hlen.
  change (Z.of_nat 1024) with 1024.
  destruct (decide _) as [_|Hn]; [reflexivity | contradiction].
Qed.

Lemma producer_stays_in_bounds_witness :
  globals_ok (Globals 1 (<[0%nat := 0x4000]> (replicate 1024 0)) 1 100) /\
  exists g',
    speaker_timer 4000 (Globals 1 (<[0%nat := 0x4000]> (replicate 1024 0)) 1 100)
      = Some (u64 (4000 + next), g') /\
    globals_ok g'.
Proof.
  apply (producer_stays_in_bounds
           [PinChange 1; TimerFires 2000; AudioPull 200]).
  vm_compute. reflexivity.
Defined.

(** X3. The cursors count modulo the capacity: after events none of which
    was undefined, the write cursor is the number of timer calls and the
    read cursor the number of whole samples pulled, both modulo 1024,
    however the events were interleaved. *)
Theorem cursors_count_modulo_capacity (es : list audio_event) (g : globals) :
  perform_all es globals_init = Some (tt, g) ->
  cur_sample g = timer_calls es mod 1024 /\
  out_sample g = samples_pulled es mod 1024.
Proof.
  intros Hrun.
  destruct (perform_all_ok es globals_init g globals_ok_init Hrun)
    as (_ & Hc & Ho).
  cbn [globals_init cur_sample out_sample] in Hc, Ho.
  rewrite Hc, Ho. split; f_equal; lia.
Qed.

Lemma cursors_count_modulo_capacity_witness :
  cur_sample (Globals 1 (<[0%nat := 0x4000]> (replicate 1024 0)) 1 100)
    = timer_calls [PinChange 1; TimerFires 2000; AudioPull 200] mod 1024 /\
  out_sample (Globals 1 (<[0%nat := 0x4000]> (replicate 1024 0)) 1 100)
    = samples_pulled [PinChange 1; TimerFires 2000; AudioPull 200] mod 1024.
Proof.
  apply (cursors_count_modulo_capacity
           [PinChange 1; TimerFires 2000; AudioPull 200]).
  vm_compute. reflexivity.
Defined.

Lemma perform_all_app es1 es2 g :
  perform_all (es1 ++ es2) g =
  match perform_all es1 g with
  | Some (_, g') => perform_all es2 g'
  | None => None
  end.
Proof.
  revert g. induction es1 as [|e es1 IH]; intros g; [reflexivity|].
  cbn [app perform_all]. unfold bind.
  destruct (perform e g) as [[[] g1]|]; [apply IH | reflexivity].
Qed.

Lemma samples_pulled_replicate (n : nat) k :
  samples_pulled (replicate n (AudioPull (2 * k))) = Z.of_nat n * k.
Proof.
  induction n as [|n IH]; [reflexivity|].
  cbn [replicate samples_pulled]. rewrite IH. lia.
Qed.

(** Pulls of [k] samples, [k] dividing the capacity, keep the read cursor
    on a multiple of [k] below the capacity. *)
Lemma pulls_aligned k c (n : nat) :
  0 < k -> 1024 = c * k ->
  forall g,
    length (samples g) = 1024%nat ->
    (exists m, 0 <= m < c /\ out_sample g = m * k) ->
    exists g',
      perform_all (replicate n (AudioPull (2 * k))) g = Some (tt, g') /\
      length (samples g') = 1024%nat /\
      exists m, 0 <= m < c /\ out_sample g' = m * k.
Proof.
  intros Hk Hc. induction n as [|n IH]; intros g Hlen (m & Hm & Hout).
  - exists g. split; [reflexivity|]. split; [exact Hlen|]. now exists m.
  - cbn [replicate perform_all perform]. unfold bind at 1 2.
    unfold audio_callback. rewrite Hlen, Hout.
    change (Z.of_nat 1024) with 1024.
    assert (Hfit : m * k + k <= 1024) by nia.
    destruct (decide _) as [_|Hn]; [|exfalso; nia].
    unfold ret. apply IH; cbn [samples out_sample]; [exact Hlen|].
    replace (2 * k / 2) with k by lia.
    unfold u16, nsamples. change (2 ^ 16) with 65536.
    destruct (decide (m + 1 = c)) as [Hlast|Hmore].
    + exists 0. split; [nia|].
      replace (m * k + k) with 1024 by nia. reflexivity.
    + exists (m + 1). split; [lia|].
      assert (m * k + k < 1024) by nia.
      rewrite Z.mod_small by nia. rewrite Z.mod_small by nia. lia.
Qed.

(** X4. Pulling blocks of [k] samples for ever never reads outside the
    array exactly when [k] divides the capacity 1024: with any other block
    size some pull runs over the end of the array. *)
Theorem block_size_must_divide_capacity (k : Z) :
  0 < k ->
  (forall n : nat,
     is_Some (perform_all (replicate n (AudioPull (2 * k))) globals_init))
  <-> (k | 1024).
Proof.
  intros Hk. split.
  - intros Hall.
    destruct (decide (k <= 1024)) as [Hle|Hgt].
    + set (j := 1024 / k).
      assert (Hj : 0 <= j /\ j * k <= 1024 /\ 1024 < (j + 1) * k)
        by (subst j; nia).
      destruct (Hall (S (Z.to_nat j))) as [[[] g] Hrun].
      replace (S (Z.to_nat j)) with (Z.to_nat j + 1)%nat in Hrun by lia.
      rewrite replicate_add, perform_all_app in Hrun.
      destruct (perform_all (replicate (Z.to_nat j) (AudioPull (2 * k)))
                  globals_init) as [[[] g1]|] eqn:Hfirst; [|discriminate].
      destruct (perform_all_ok _ _ _ globals_ok_init Hfirst)
        as ((Hlen & _) & _ & Hpos).
      rewrite samples_pulled_replicate in Hpos.
      cbn [globals_init out_sample] in Hpos.
      rewrite Z2Nat.id in Hpos by lia.
      cbn [replicate perform_all perform] in Hrun.
      unfold bind, audio_callback in Hrun. rewrite Hlen, Hpos in Hrun.
      change (Z.of_nat 1024) with 1024 in Hrun.
      destruct (decide _) as [Hok|_]; [|discriminate].
      destruct (decide (j * k = 1024)) as [Heq|Hne].
      * exists j. lia.
      * exfalso. rewrite Z.add_0_l, Z.mod_small in Hok by lia. lia.
    + destruct (Hall 1%nat) as [[[] g] Hrun].
      cbn [replicate perform_all perform] in Hrun.
      unfold bind, audio_callback in Hrun.
      cbn [globals_init samples out_sample] in Hrun.
      rewrite length_replicate in Hrun.
      change (Z.of_nat (Z.to_nat nsamples)) with 1024 in Hrun.
      destruct (decide _) as [Hok|_]; [lia | discriminate].
  - intros [c Hc] n.
    destruct (pulls_aligned k c n Hk Hc globals_init) as (g' & Hrun & _).
    + cbn [globals_init samples]. now rewrite length_replicate.
    + exists 0. cbn [globals_init out_sample]. split; [nia | lia].
    + rewrite Hrun. now eexists.
Qed.

Lemma block_size_must_divide_capacity_witness :
  (forall n : nat,
     is_Some (perform_all (replicate n (AudioPull (2 * 256))) globals_init))
  <-> (256 | 1024).
Proof. apply (block_size_must_divide_capacity 256). lia. Defined.

(** X5. The two sides do not disturb each other's part of the globals: a
    pull followed by a timer call leaves the same globals as the timer call
    followed by the pull, and the one order is undefined exactly when the
    other is. *)
Theorem pull_and_timer_commute (len when : Z) (g : globals) :
  perform_all [AudioPull len; TimerFires when] g =
  perform_all [TimerFires when; AudioPull len] g.
Proof.
  cbn [perform_all perform]. unfold bind, audio_callback, speaker_timer, ret.
  destruct (decide (0 <= len /\ 0 <= out_sample g /\
              2 * out_sample g + len <= 2 * Z.of_nat (length (samples g))))
    as [Ha|Ha];
  destruct (decide (0 <= cur_sample g < Z.of_nat (length (samples g))))
    as [Ht|Ht];
  cbn [samples cur_sample out_sample speaker_value];
  rewrite ?length_insert;
  repeat (destruct (decide _); try contradiction);
  reflexivity.
Qed.

Lemma produce_defined v g :
  0 <= cur_sample g < Z.of_nat (length (samples g)) ->
  produce v g =
  Some (tt, Globals (u8 v)
                    (<[Z.to_nat (cur_sample g) := sample_of (u8 v)]> (samples g))
                    (u16 (cur_sample g + 1) mod nsamples)
                    (out_sample g)).
Proof.
  intros Hcur. unfold produce, bind, speaker_hook, speaker_timer, ret.
  cbn [samples cur_sample speaker_value out_sample].
  destruct (decide _) as [_|Hn]; [reflexivity | contradiction].
Qed.

(** Below the capacity the array is what was appended, then the zeros it
    started with. *)
Lemma produce_all_fill levels :
  (length levels <= 1024)%nat ->
  exists g,
    produce_all levels globals_init = Some (tt, g) /\
    samples g = produced levels ++ replicate (1024 - length levels) 0 /\
    cur_sample g = Z.of_nat (length levels) mod 1024 /\
    out_sample g = 0.
Proof.
  induction levels as [|v levels IH] using rev_ind; intros Hn.
  - exists globals_init. split; [reflexivity|].
    cbn [length produced map app]. now rewrite Nat.sub_0_r.
  - rewrite length_app in Hn. cbn [length] in Hn.
    destruct IH as (g & Hrun & Hs & Hc & Ho); [lia|].
    assert (Hplen : length (produced levels) = length levels)
      by (unfold produced; now rewrite length_map).
    assert (Hlen : length (samples g) = 1024%nat).
    { rewrite Hs, length_app, length_replicate, Hplen. lia. }
    rewrite produce_all_snoc, Hrun, produce_defined
      by (rewrite Hlen, Hc; change (Z.of_nat 1024) with 1024; lia).
    eexists. split; [reflexivity|].
    cbn [samples cur_sample out_sample]. rewrite Hc, Hs.
    split; [|split; [|exact Ho]].
    + replace (Z.to_nat (Z.of_nat (length levels) mod 1024))
        with (length (produced levels) + 0)%nat by (rewrite Hplen; lia).
      rewrite insert_app_r.
      replace (1024 - length levels)%nat
        with (S (1024 - length (levels ++ [v])))%nat
        by (rewrite length_app; cbn [length]; lia).
      cbn [replicate]. unfold produced at 2. rewrite map_app.
      cbn [map]. now rewrite <- app_assoc.
    + rewrite length_app. cbn [length].
      unfold u16, nsamples. change (2 ^ 16) with 65536. lia.
Qed.

(** X6. Underrun: when fewer samples than the capacity were appended to
    the initial buffer, a pull of the whole block still returns 1024
    samples; they are the appended ones followed by zeros. *)
Theorem underrun_reads_zeros (levels : list Z) :
  (length levels <= 1024)%nat ->
  exists stream g,
    (run produce_all levels then consume 1024) globals_init
      = Some (stream, g) /\
    samples_of_stream stream =
      produced levels ++ replicate (1024 - length levels) 0 /\
    out_sample g = 0.
Proof.
  intros Hn.
  destruct (produce_all_fill levels Hn) as (g & Hrun & Hs & Hc & Ho).
  assert (Hlen : length (samples g) = 1024%nat).
  { rewrite Hs, length_app, length_replicate. unfold produced.
    rewrite length_map. lia. }
  pose proof (consume_slice g 1024 0 Hlen ltac:(lia) ltac:(lia) ltac:(lia)
                ltac:(now rewrite Ho)) as Hpull.
  change (Z.to_nat 0) with 0%nat in Hpull. rewrite drop_0 in Hpull.
  rewrite take_ge in Hpull by (rewrite Hlen; lia).
  eexists _, _. split; [|split].
  - rewrite (bind_Some _ _ _ _ _ Hrun). exact Hpull.
  - rewrite <- Hs. apply samples_of_stream_bytes.
    rewrite Hs. apply Forall_app. split.
    + unfold produced. apply Forall_map, Forall_forall.
      intros v _. apply sample_of_range.
    + apply Forall_replicate. lia.
  - reflexivity.
Qed.

Lemma underrun_reads_zeros_witness :
  exists stream g,
    (run produce_all [1; 1; 0] then consume 1024) globals_init
      = Some (stream, g) /\
    samples_of_stream stream =
      produced [1; 1; 0] ++ replicate (1024 - length [1; 1; 0]) 0 /\
    out_sample g = 0.
Proof.
  apply (underrun_reads_zeros [1; 1; 0]). cbn [length]. lia.
Defined.

Lemma length_sampled level es :
  Z.of_nat (length (sampled level es)) = timer_calls es.
Proof.
  revert level. induction es as [|[v|w|len] es IH]; intros level;
    cbn [sampled timer_calls length]; rewrite ?IH; try reflexivity.
  rewrite Nat2Z.inj_succ, IH. lia.
Qed.

Lemma sampled_from es :
  forall g g' c,
    globals_ok g -> 0 <= c -> cur_sample g = c mod 1024 ->
    c + timer_calls es <= 1024 ->
    perform_all es g = Some (tt, g') ->
    take (Z.to_nat (c + timer_calls es)) (samples g') =
    take (Z.to_nat c) (samples g) ++ sampled (speaker_value g) es.
Proof.
  induction es as [|e es IH]; intros g g' c Hg Hc Hcur Hfit Hrun.
  - cbn [perform_all] in Hrun. unfold ret in Hrun. inversion Hrun; subst g'.
    cbn [timer_calls sampled]. now rewrite Z.add_0_r, app_nil_r.
  - cbn [perform_all] in Hrun. unfold bind in Hrun.
    destruct (perform e g) as [[[] g1]|] eqn:He; [|discriminate].
    destruct (perform_ok e g g1 Hg He) as (Hg1 & Hc1 & _).
    pose proof (length_sampled (speaker_value g) es) as Hcount.
    assert (Hnn : 0 <= timer_calls es)
      by (rewrite <- (length_sampled 0 es); lia).
    destruct Hg as (Hlen & Hcr & _).
    destruct e as [v|w|len]; cbn [perform timer_calls sampled] in *.
    + unfold speaker_hook in He. inversion He; subst g1.
      rewrite (IH _ g' c Hg1 Hc Hcur Hfit Hrun). reflexivity.
    + unfold bind, speaker_timer, ret in He. rewrite Hlen in He.
      change (Z.of_nat 1024) with 1024 in He.
      destruct (decide _) as [_|Hn]; [|discriminate].
      inversion He; subst g1; clear He.
      assert (Hidx : cur_sample g = c) by lia.
      replace (c + (1 + timer_calls es)) with ((c + 1) + timer_calls es) by lia.
      rewrite (IH _ g' (c + 1) Hg1 ltac:(lia) ltac:(rewrite Hc1; f_equal; lia)
                 ltac:(lia) Hrun).
      cbn [samples speaker_value]. rewrite Hidx.
      replace (Z.to_nat (c + 1)) with (S (Z.to_nat c)) by lia.
      rewrite (take_S_r _ _ (sample_of (speaker_value g)))
        by (apply list_lookup_insert_eq; lia).
      rewrite take_insert_ge by lia. now rewrite <- app_assoc.
    + unfold bind, audio_callback, ret in He.
      destruct (decide _) as [_|Hn]; [|discriminate].
      inversion He; subst g1; clear He.
      rewrite (IH _ g' c Hg1 Hc Hcur Hfit Hrun). reflexivity.
Qed.

(** X17. Sample and hold: while the buffer has not wrapped, the samples
    stored since the start are, one per timer call, the level the most
    recent pin change before that call left; pin changes between two timer
    calls other than the last are not seen, and pulls change nothing. *)
Theorem samples_hold_last_level (es : list audio_event) (g : globals) :
  timer_calls es <= 1024 ->
  perform_all es globals_init = Some (tt, g) ->
  take (Z.to_nat (timer_calls es)) (samples g) = sampled 0 es.
Proof.
  intros Hfit Hrun.
  pose proof (sampled_from es globals_init g 0 globals_ok_init ltac:(lia)
                eq_refl ltac:(lia) Hrun) as H.
  rewrite Z.add_0_l in H. exact H.
Qed.

Lemma samples_hold_last_level_witness :
  take (Z.to_nat (timer_calls
          [PinChange 1; PinChange 0; TimerFires 2000; PinChange 1;
           AudioPull 64; TimerFires 4000]))
       (samples (Globals 1 (<[1%nat := 0x4000]> (replicate 1024 0)) 2 32))
  = sampled 0 [PinChange 1; PinChange 0; TimerFires 2000; PinChange 1;
               AudioPull 64; TimerFires 4000].
Proof.
  apply (samples_hold_last_level
           [PinChange 1; PinChange 0; TimerFires 2000; PinChange 1;
            AudioPull 64; TimerFires 4000]).
  - vm_compute. discriminate.
  - vm_compute. reflexivity.
Defined.

(** X18. A callback that is defined fills the whole destination: the
    stream has exactly [len] bytes, they are the bytes of the array from
    the read cursor on, and the array, the write cursor and the speaker
    level are left as they were. *)
Theorem audio_callback_fills_stream (len : Z) (g g' : globals) (stream : list Z) :
  audio_callback len g = Some (stream, g') ->
  Z.of_nat (length stream) = len /\
  stream = take (Z.to_nat len)
             (drop (Z.to_nat (2 * out_sample g)) (bytes_of (samples g))) /\
  samples g' = samples g /\ cur_sample g' = cur_sample g /\
  speaker_value g' = speaker_value g.
Proof.
  unfold audio_callback.
  destruct (decide _) as [(Hlen & Hout & Hfit)|_]; [|discriminate].
  intros Hrun. inversion Hrun; subst; clear Hrun.
  cbn [samples cur_sample speaker_value].
  split; [|now repeat split].
  rewrite length_take, length_drop, length_bytes_of. lia.
Qed.

Lemma audio_callback_fills_stream_witness :
  Z.of_nat (length (take 6 (drop 4 (bytes_of (replicate 1024 0))))) = 6 /\
  take 6 (drop 4 (bytes_of (replicate 1024 0))) =
    take (Z.to_nat 6)
      (drop (Z.to_nat (2 * out_sample (Globals 0 (replicate 1024 0) 0 2)))
         (bytes_of (samples (Globals 0 (replicate 1024 0) 0 2)))) /\
  samples (Globals 0 (replicate 1024 0) 0 5)
    = samples (Globals 0 (replicate 1024 0) 0 2) /\
  cur_sample (Globals 0 (replicate 1024 0) 0 5)
    = cur_sample (Globals 0 (replicate 1024 0) 0 2) /\
  speaker_value (Globals 0 (replicate 1024 0) 0 5)
    = speaker_value (Globals 0 (replicate 1024 0) 0 2).
Proof.
  apply (audio_callback_fills_stream 6 (Globals 0 (replicate 1024 0) 0 2)
           (Globals 0 (replicate 1024 0) 0 5)).
  vm_compute. reflexivity.
Defined.

End RingBufferMore.

(** * Further properties of the sampling cadence *)

Section CadenceMore.

#[local] Arguments Z.mul : simpl never.
#[local] Arguments Z.add : simpl never.
#[local] Arguments Z.modulo : simpl never.
#[local] Arguments Z.div : simpl never.

(** X7. No drift: because [speaker_timer] returns its deadline plus the
    period, not the current cycle plus the period, the deadlines stay on
    the multiples of 2000 cycles however far the instructions overshoot
    them. After any number C of emulated cycles the pending deadline is the
    next multiple of 2000 after C, and exactly C / 2000 samples were
    stored: those of the levels held at the deadlines passed, the newest
    1024 of them being in the ring, each in the slot of its index modulo
    the capacity. *)
Theorem deadlines_stay_on_grid (C : Z) (steps : list instruction) (fuel : nat) :
  Forall (fun i => 0 <= cycles i) steps ->
  total_cycles steps = C ->
  C + next < 2 ^ 64 ->
  C / next < Z.of_nat fuel ->
  exists c g,
    emulate fuel steps clock_init globals_init = Some (c, g) /\
    cycle c = C /\
    deadline c = 2000 * (C / 2000 + 1) /\
    C < deadline c <= C + 2000 /\
    let appended := produced (held_values 0 0 steps) in
    Z.of_nat (length appended) = C / 2000 /\
    cur_sample g = (C / 2000) mod nsamples /\
    forall j : nat,
      (j < length appended)%nat -> (length appended <= j + 1024)%nat ->
      samples g !! (j mod 1024)%nat = appended !! j.
Proof.
  intros Hpos Hsum Hmax Hfuel.
  pose proof (total_cycles_nonneg steps Hpos) as HC. rewrite Hsum in HC.
  destruct (emulate_appends fuel steps clock_init globals_init [] 0)
    as (c & g & Hrun & Hcyc & Hfired & Hcount & Hdead & Hring & _).
  - apply ring_of_init.
  - reflexivity.
  - reflexivity.
  - reflexivity.
  - reflexivity.
  - cbn [cycle clock_init]. lia.
  - exact Hpos.
  - cbn [cycle clock_init]. rewrite Hsum. lia.
  - cbn [cycle clock_init]. rewrite Hsum. exact Hfuel.
  - cbn [cycle clock_init app] in Hcyc, Hcount, Hring.
    rewrite Z.add_0_l, Hsum in Hcyc. rewrite next_value, Hcyc in *.
    destruct Hring as (_ & Hcur & _ & Hslots).
    exists c, g. split; [exact Hrun|]. split; [exact Hcyc|].
    split; [lia|]. split; [lia|].
    assert (Hl : length (produced (held_values 0 0 steps))
                 = length (held_values 0 0 steps))
      by (unfold produced; apply length_map).
    cbv zeta. rewrite !Hl.
    split; [lia|]. split.
    + unfold nsamples. rewrite Hcur. f_equal. lia.
    + exact Hslots.
Qed.

Lemma deadlines_stay_on_grid_witness :
  exists c g,
    emulate 4 [Instr (Some 1) 1999; Instr None 2; Instr (Some 2) 3500]
      clock_init globals_init = Some (c, g) /\
    cycle c = 5501 /\
    deadline c = 2000 * (5501 / 2000 + 1) /\
    5501 < deadline c <= 5501 + 2000 /\
    let appended :=
      produced (held_values 0 0
                  [Instr (Some 1) 1999; Instr None 2; Instr (Some 2) 3500]) in
    Z.of_nat (length appended) = 5501 / 2000 /\
    cur_sample g = (5501 / 2000) mod nsamples /\
    forall j : nat,
      (j < length appended)%nat -> (length appended <= j + 1024)%nat ->
      samples g !! (j mod 1024)%nat = appended !! j.
Proof.
  apply (deadlines_stay_on_grid 5501
           [Instr (Some 1) 1999; Instr None 2; Instr (Some 2) 3500] 4).
  - repeat constructor; cbn [cycles]; lia.
  - reflexivity.
  - reflexivity.
  - reflexivity.
Defined.

End CadenceMore.

(** * Further properties of the display conversion *)

Section DisplayMore.

#[local] Arguments Z.mul : simpl never.
#[local] Arguments Z.add : simpl never.

(** A loop that completes ran its body at every index. *)
Lemma for_loop_ran {S} (body : Z -> S -> option S) n :
  forall i s r,
    for_loop n i body s = Some r ->
    forall k, i <= k < i + Z.of_nat n -> exists t, is_Some (body k t).
Proof.
  induction n as [|n IH]; intros i s r Hrun k Hk; [lia|].
  cbn [for_loop] in Hrun.
  destruct (body i s) as [s'|] eqn:Hb; [|discriminate].
  destruct (decide (k = i)) as [->|Hne].
  - exists s. rewrite Hb. now eexists.
  - apply (IH (i + 1) s' r Hrun). lia.
Qed.

Lemma put_pixel_shade display y x pixels :
  is_Some (vram_read display (Z.quot y 8) x) ->
  put_pixel display y x pixels = Some (pixels ++ [shade display y x]).
Proof.
  intros [byte Hb]. unfold put_pixel, shade. now rewrite Hb.
Qed.

(** X8. [draw_display] reads inside the video memory exactly when that has
    page [p], column [c] for every [p] below 8 and [c] below 128; it then
    builds a frame of 8192 pixels, each white or black. *)
Theorem draw_display_defined_iff (display : ssd1306_t) :
  (is_Some (draw_display display) <-> covers_frame display) /\
  forall frame,
    draw_display display = Some frame ->
    Z.of_nat (length frame) = 8192 /\
    Forall (fun p => p = white \/ p = black) frame.
Proof.
  assert (Hfwd : covers_frame display ->
    draw_display display =
    Some (flat_map (fun y => map (shade display y) (seqZ 0 128)) (seqZ 0 64))).
  { intros Hcov. unfold draw_display.
    rewrite (for_loop_chunks (fun y => map (shade display y) (seqZ 0 128))).
    - reflexivity.
    - intros y t Hy.
      rewrite (for_loop_chunks (fun x => [shade display y x])).
      + now rewrite flat_map_singleton.
      + intros x s Hx. apply put_pixel_shade. apply Hcov; [|lia].
        rewrite Z.quot_div_nonneg by lia. lia. }
  assert (Hbwd : is_Some (draw_display display) -> covers_frame display).
  { intros [frame Hrun] page column Hp Hc. unfold draw_display in Hrun.
    destruct (for_loop_ran _ 64 0 [] frame Hrun (8 * page)) as [t [r Hrow]];
      [lia|].
    destruct (for_loop_ran _ 128 0 t r Hrow column) as [u [v Hput]]; [lia|].
    unfold put_pixel in Hput.
    replace (Z.quot (8 * page) 8) with page in Hput
      by (rewrite Z.quot_div_nonneg by lia; lia).
    destruct (vram_read display page column) as [byte|]; [now eexists|].
    discriminate Hput. }
  split; [split; [exact Hbwd|]|].
  - intros Hcov. rewrite (Hfwd Hcov). now eexists.
  - intros frame Hrun.
    specialize (Hfwd (Hbwd (ex_intro _ frame Hrun))).
    assert (Heq : flat_map (fun y => map (shade display y) (seqZ 0 128))
                    (seqZ 0 64) = frame) by congruence.
    rewrite <- Heq. split.
    + rewrite (length_chunks _ 128), length_seqZ; [reflexivity|].
      intros y. now rewrite length_map, length_seqZ.
    + apply Forall_flat_map, Forall_forall. intros y _.
      apply Forall_map, Forall_forall. intros x _. unfold shade.
      destruct (vram_read display (Z.quot y 8) x); [|now right].
      destruct (decide _); [now left | now right].
Qed.

Lemma draw_display_defined_iff_witness :
  (is_Some (draw_display one_dot) <-> covers_frame one_dot) /\
  forall frame,
    draw_display one_dot = Some frame ->
    Z.of_nat (length frame) = 8192 /\
    Forall (fun p => p = white \/ p = black) frame.
Proof. apply (draw_display_defined_iff one_dot). Defined.

Lemma frame_pixel display frame x y :
  display_ok display -> 0 <= x < 128 -> 0 <= y < 64 ->
  draw_display display = Some frame ->
  pixel frame x y = Some (colour_at display x y).
Proof.
  intros Hok Hx Hy Hrun.
  rewrite (draw_display_frame display Hok) in Hrun.
  assert (Heq : flat_map
                  (fun y => map (fun x => colour_at display x y) (seqZ 0 128))
                  (seqZ 0 64) = frame) by congruence.
  rewrite <- Heq. unfold pixel.
  replace (Z.to_nat (y * 128 + x)) with (Z.to_nat y * 128 + Z.to_nat x)%nat
    by lia.
  rewrite (lookup_chunks _ 128);
    [| intros y'; now rewrite length_map, length_seqZ | lia].
  rewrite lookup_seqZ_lt by lia.
  rewrite list_lookup_fmap, lookup_seqZ_lt by lia.
  cbn [fmap option_fmap option_map].
  replace (0 + Z.of_nat (Z.to_nat x)) with x by lia.
  replace (0 + Z.of_nat (Z.to_nat y)) with y by lia.
  reflexivity.
Qed.

Lemma byte_from_bits a b :
  0 <= a < 256 -> 0 <= b < 256 ->
  (forall k, 0 <= k < 8 -> Z.testbit a k = Z.testbit b k) -> a = b.
Proof.
  intros Ha Hb Hbits. apply Z.bits_inj'. intros n Hn.
  destruct (decide (n < 8)) as [Hlow|Hhigh]; [apply Hbits; lia|].
  rewrite <- (Z.mod_small a (2 ^ 8)), <- (Z.mod_small b (2 ^ 8))
    by (change (2 ^ 8) with 256; lia).
  rewrite !Z.mod_pow2_bits_high by lia. reflexivity.
Qed.

Lemma vram_read_cell display page column :
  0 <= page -> 0 <= column ->
  vram_read display page column =
  match vram display !! Z.to_nat page with
  | Some bytes => bytes !! Z.to_nat column
  | None => None
  end.
Proof.
  intros Hp Hc. unfold vram_read.
  destruct (decide _) as [_|Hn]; [reflexivity | lia].
Qed.

(** X9. The conversion loses nothing: two video memories of eight pages
    of 128 bytes that give the same frame are the same. *)
Theorem draw_display_injective (d1 d2 : ssd1306_t) :
  display_ok d1 -> display_ok d2 ->
  byte_cells d1 -> byte_cells d2 ->
  draw_display d1 = draw_display d2 ->
  d1 = d2.
Proof.
  intros Hok1 Hok2 Hb1 Hb2 Hsame.
  assert (Hcell : forall p c : nat, (p < 8)%nat -> (c < 128)%nat ->
            vram_read d1 (Z.of_nat p) (Z.of_nat c)
            = vram_read d2 (Z.of_nat p) (Z.of_nat c)).
  { intros p c Hp Hc.
    destruct (vram_read_ok d1 Hok1 (Z.of_nat p) (Z.of_nat c)) as [b1 H1];
      [lia | lia |].
    destruct (vram_read_ok d2 Hok2 (Z.of_nat p) (Z.of_nat c)) as [b2 H2];
      [lia | lia |].
    rewrite H1, H2. f_equal.
    assert (Hr1 : 0 <= b1 < 256).
    { rewrite vram_read_cell in H1 by lia. rewrite !Nat2Z.id in H1.
      destruct (vram d1 !! p) as [bytes|] eqn:Hpg; [|discriminate].
      exact (proj1 (Forall_lookup _ _)
               (proj1 (Forall_lookup _ _) Hb1 _ _ Hpg) _ _ H1). }
    assert (Hr2 : 0 <= b2 < 256).
    { rewrite vram_read_cell in H2 by lia. rewrite !Nat2Z.id in H2.
      destruct (vram d2 !! p) as [bytes|] eqn:Hpg; [|discriminate].
      exact (proj1 (Forall_lookup _ _)
               (proj1 (Forall_lookup _ _) Hb2 _ _ Hpg) _ _ H2). }
    apply byte_from_bits; [exact Hr1 | exact Hr2 |].
    intros k Hk.
    destruct (draw_display d1) as [frame|] eqn:Hf1.
    2:{ rewrite (draw_display_frame d1 Hok1) in Hf1. discriminate. }
    symmetry in Hsame.
    pose proof (frame_pixel d1 frame (Z.of_nat c) (8 * Z.of_nat p + k)
                  Hok1 ltac:(lia) ltac:(lia) Hf1) as P1.
    pose proof (frame_pixel d2 frame (Z.of_nat c) (8 * Z.of_nat p + k)
                  Hok2 ltac:(lia) ltac:(lia) Hsame) as P2.
    rewrite P1 in P2. injection P2 as P2. unfold colour_at in P2.
    replace ((8 * Z.of_nat p + k) / 8) with (Z.of_nat p) in P2 by lia.
    replace ((8 * Z.of_nat p + k) mod 8) with k in P2 by lia.
    rewrite H1, H2 in P2.
    destruct (Z.testbit b1 k), (Z.testbit b2 k);
      try reflexivity; discriminate P2. }
  destruct d1 as [v1], d2 as [v2]. f_equal.
  destruct Hok1 as [Hp1 Hc1], Hok2 as [Hp2 Hc2]. cbn [vram] in *.
  apply list_eq. intros p.
  destruct (decide (p < 8)%nat) as [Hp|Hp].
  2:{ rewrite !(proj2 (lookup_ge_None _ _)) by lia. reflexivity. }
  destruct (lookup_lt_is_Some_2 v1 p) as [pg1 Hg1]; [lia|].
  destruct (lookup_lt_is_Some_2 v2 p) as [pg2 Hg2]; [lia|].
  rewrite Hg1, Hg2. f_equal.
  pose proof (proj1 (Forall_lookup _ _) Hc1 _ _ Hg1) as Hl1.
  pose proof (proj1 (Forall_lookup _ _) Hc2 _ _ Hg2) as Hl2.
  cbn beta in Hl1, Hl2.
  apply list_eq. intros c.
  destruct (decide (c < 128)%nat) as [Hc|Hc].
  2:{ rewrite !(proj2 (lookup_ge_None _ _)) by lia. reflexivity. }
  specialize (Hcell p c Hp Hc).
  rewrite !vram_read_cell in Hcell by lia. cbn [vram] in Hcell.
  rewrite !Nat2Z.id, Hg1, Hg2 in Hcell. exact Hcell.
Qed.

Lemma draw_display_injective_witness : one_dot = one_dot.
Proof.
  apply (draw_display_injective one_dot one_dot).
  - split; [reflexivity|]. repeat constructor.
  - split; [reflexivity|]. repeat constructor.
  - apply Forall_forall. intros page Hp. apply Forall_forall. intros b Hb.
    apply list_elem_of_In in Hp. cbn in Hp.
    repeat (destruct Hp as [<-|Hp];
            [apply list_elem_of_In in Hb; cbn in Hb;
             repeat (destruct Hb as [<-|Hb]; [lia|]); contradiction|]).
    contradiction.
  - apply Forall_forall. intros page Hp. apply Forall_forall. intros b Hb.
    apply list_elem_of_In in Hp. cbn in Hp.
    repeat (destruct Hp as [<-|Hp];
            [apply list_elem_of_In in Hb; cbn in Hb;
             repeat (destruct Hb as [<-|Hb]; [lia|]); contradiction|]).
    contradiction.
  - reflexivity.
Defined.

End DisplayMore.

(** * Further properties of the key dispatch and of the two loops *)

Section EventLoopMore.

(** The switch as a table: a quit event clears the flag, a key event of
    the table raises its pin, anything else does nothing. *)
Lemma dispatch_table event w :
  dispatch event w =
  if is_quit event then set_running false w
  else match key_action event with
       | Some (b, v) => avr_raise_irq b v w
       | None => w
       end.
Proof.
  unfold dispatch, is_quit, key_action, button_of, key_table, table_lookup.
  destruct (decide (type event = SDL_QUIT)) as [Hq|Hq].
  { now rewrite bool_decide_eq_true_2. }
  rewrite bool_decide_eq_false_2 by exact Hq.
  destruct (decide (type event = SDL_KEYDOWN)) as [Hd|Hd];
    [|destruct (decide (type event = SDL_KEYUP)) as [Hu|Hu]].
  3:{ destruct (decide _) as [[?|?]|_]; [contradiction | contradiction |].
      reflexivity. }
  all: (destruct (decide (type event = SDL_KEYDOWN \/ type event = SDL_KEYUP))
         as [_|Hn]; [|exfalso; apply Hn; auto]).
  all: destruct (decide (scancode event = SDL_SCANCODE_UP)) as [->|H1];
    [reflexivity|];
    destruct (decide (SDL_SCANCODE_UP = scancode event)) as [|_];
    [congruence|];
    destruct (decide (scancode event = SDL_SCANCODE_DOWN)) as [->|H2];
    [reflexivity|];
    destruct (decide (SDL_SCANCODE_DOWN = scancode event)) as [|_];
    [congruence|];
    destruct (decide (scancode event = SDL_SCANCODE_LEFT)) as [->|H3];
    [reflexivity|];
    destruct (decide (SDL_SCANCODE_LEFT = scancode event)) as [|_];
    [congruence|];
    destruct (decide (scancode event = SDL_SCANCODE_RIGHT)) as [->|H4];
    [reflexivity|];
    destruct (decide (SDL_SCANCODE_RIGHT = scancode event)) as [|_];
    [congruence|];
    destruct (decide (scancode event = SDL_SCANCODE_A)) as [->|H5];
    [reflexivity|];
    destruct (decide (SDL_SCANCODE_A = scancode event)) as [|_];
    [congruence|];
    destruct (decide (scancode event = SDL_SCANCODE_S)) as [->|H6];
    [reflexivity|];
    destruct (decide (SDL_SCANCODE_S = scancode event)) as [|_];
    [congruence|];
    reflexivity.
Qed.

Lemma wiring_inj b1 b2 : wiring b1 = wiring b2 -> b1 = b2.
Proof. destruct b1, b2; cbn; intros H; try reflexivity; discriminate H. Qed.

Lemma button_of_inj c1 c2 b :
  button_of c1 = Some b -> button_of c2 = Some b -> c1 = c2.
Proof.
  unfold button_of, key_table, table_lookup. intros H1 H2.
  repeat (destruct (decide _) as [?|?] in H1; [subst|]);
  repeat (destruct (decide _) as [?|?] in H2; [subst|]);
  try discriminate; try reflexivity; congruence.
Qed.

Lemma quit_is_no_key event : is_quit event = true -> key_action event = None.
Proof.
  unfold is_quit, key_action. intros H. apply bool_decide_eq_true_1 in H.
  rewrite H. reflexivity.
Qed.

Lemma raise_twice b v v' w :
  avr_raise_irq b v (avr_raise_irq b v' w) = avr_raise_irq b v w.
Proof.
  unfold avr_raise_irq, set_pins. cbn. now rewrite insert_insert_eq.
Qed.

Lemma raise_swap b1 b2 v1 v2 w :
  b1 <> b2 ->
  avr_raise_irq b1 v1 (avr_raise_irq b2 v2 w) =
  avr_raise_irq b2 v2 (avr_raise_irq b1 v1 w).
Proof.
  intros Hne. unfold avr_raise_irq, set_pins. cbn. f_equal.
  apply insert_insert_ne. intros H. apply Hne. now apply wiring_inj.
Qed.

(** X10. Handling an event a second time changes nothing: the repeated
    key-down events of a held key, or a second quit event, leave the state
    as the first left it. *)
Theorem dispatch_idempotent (event : SDL_Event) (w : world) :
  dispatch event (dispatch event w) = dispatch event w.
Proof.
  rewrite !dispatch_table.
  destruct (is_quit event); [reflexivity|].
  destruct (key_action event) as [[b v]|]; [apply raise_twice | reflexivity].
Qed.

(** X11. Events of different scancodes can be handled in either order:
    each key has its own pin and the quit flag is apart from the pins. *)
Theorem dispatch_commutes (e1 e2 : SDL_Event) (w : world) :
  scancode e1 <> scancode e2 ->
  dispatch e1 (dispatch e2 w) = dispatch e2 (dispatch e1 w).
Proof.
  intros Hne. rewrite !dispatch_table.
  assert (Hbuttons : forall b1 v1 b2 v2,
            key_action e1 = Some (b1, v1) -> key_action e2 = Some (b2, v2) ->
            b1 <> b2).
  { intros b1 v1 b2 v2 H1 H2 Heq. subst b2. apply Hne.
    unfold key_action in H1, H2.
    destruct (button_of (scancode e1)) as [b1'|] eqn:Hb1;
      [|repeat (destruct (decide _) in H1); discriminate].
    destruct (button_of (scancode e2)) as [b2'|] eqn:Hb2;
      [|repeat (destruct (decide _) in H2); discriminate].
    assert (b1' = b1)
      by (repeat (destruct (decide _) in H1); congruence).
    assert (b2' = b1)
      by (repeat (destruct (decide _) in H2); congruence).
    subst. now apply (button_of_inj _ _ b1). }
  destruct (is_quit e1), (is_quit e2); try reflexivity.
  - destruct (key_action e2) as [[b v]|]; reflexivity.
  - destruct (key_action e1) as [[b v]|]; reflexivity.
  - destruct (key_action e1) as [[b1 v1]|] eqn:H1,
             (key_action e2) as [[b2 v2]|] eqn:H2; try reflexivity.
    apply raise_swap. now apply (Hbuttons b1 v1 b2 v2).
Qed.

Lemma dispatch_commutes_witness :
  dispatch (Event SDL_KEYDOWN SDL_SCANCODE_UP)
    (dispatch (Event SDL_KEYUP SDL_SCANCODE_A) (boot ∅ []))
  = dispatch (Event SDL_KEYUP SDL_SCANCODE_A)
      (dispatch (Event SDL_KEYDOWN SDL_SCANCODE_UP) (boot ∅ [])).
Proof.
  apply (dispatch_commutes (Event SDL_KEYDOWN SDL_SCANCODE_UP)
           (Event SDL_KEYUP SDL_SCANCODE_A) (boot ∅ [])).
  discriminate.
Defined.

Lemma dispatch_pin event w b :
  pins (dispatch event w) !! wiring b =
  match key_action event with
  | Some (b', v) => if decide (b' = b) then Some v else pins w !! wiring b
  | None => pins w !! wiring b
  end.
Proof.
  rewrite dispatch_table.
  destruct (is_quit event) eqn:Hq.
  { now rewrite (quit_is_no_key event Hq). }
  destruct (key_action event) as [[b' v]|]; [|reflexivity].
  unfold avr_raise_irq, set_pins. cbn [pins].
  destruct (decide (b' = b)) as [->|Hne].
  - apply lookup_insert_eq.
  - apply lookup_insert_ne. intros H. apply Hne. now apply wiring_inj.
Qed.

Lemma dispatch_running event w :
  running (dispatch event w) = running w && negb (is_quit event).
Proof.
  rewrite dispatch_table. destruct (is_quit event).
  - cbn. now rewrite andb_false_r.
  - rewrite andb_true_r.
    destruct (key_action event) as [[b v]|]; reflexivity.
Qed.

Lemma drain_steps q :
  forall w (b : Button),
    queue w = q -> main_at w = MainPoll ->
    let w' := exec (replicate (length q) Main) w in
    queue w' = [] /\ main_at w' = MainPoll /\
    pins w' !! wiring b = last_level b q (pins w !! wiring b) /\
    running w' = running w && negb (existsb is_quit q) /\
    frames w' = frames w /\ avr_runs w' = avr_runs w /\
    core_at w' = core_at w.
Proof.
  induction q as [|event rest IH]; intros w b Hq Hpc; cbv zeta.
  - cbn [length replicate exec fold_left last_level existsb negb].
    rewrite andb_true_r. now repeat split.
  - cbn [length replicate exec fold_left].
    fold (exec (replicate (length rest) Main) (exec_step w Main)).
    assert (Hstep : exec_step w Main = dispatch event (set_queue rest w)).
    { unfold exec_step. cbn [step]. unfold step_main. now rewrite Hpc, Hq. }
    rewrite Hstep.
    pose proof (dispatch_shape event (set_queue rest w))
      as (Hd1 & Hd2 & Hd3 & Hd4 & Hd5 & _).
    cbn [queue main_at core_at frames avr_runs set_queue] in Hd1, Hd2, Hd3, Hd4, Hd5.
    destruct (IH (dispatch event (set_queue rest w)) b Hd1
                (eq_trans Hd2 Hpc)) as (I1 & I2 & I3 & I4 & I5 & I6 & I7).
    rewrite I1, I2, I3, I4, I5, I6, I7, Hd3, Hd4, Hd5.
    rewrite dispatch_pin, dispatch_running.
    cbn [pins running set_queue last_level existsb].
    split; [reflexivity|]. split; [reflexivity|]. split; [reflexivity|].
    split; [|now repeat split].
    destruct (running w), (is_quit event), (existsb is_quit rest); reflexivity.
Qed.

(** X12. After [main] has polled all the pending events, each input pin is
    at the level the last key event for its key asked for, and at its old
    level when there was none; the flag is cleared exactly when a quit
    event was among them, and nothing is drawn meanwhile. *)
Theorem drained_queue_last_event_wins (w : world) (b : Button) :
  main_at w = MainPoll ->
  let w' := exec (replicate (length (queue w)) Main) w in
  queue w' = [] /\ main_at w' = MainPoll /\
  pins w' !! wiring b = last_level b (queue w) (pins w !! wiring b) /\
  running w' = running w && negb (existsb is_quit (queue w)) /\
  frames w' = frames w.
Proof.
  intros Hpc.
  destruct (drain_steps (queue w) w b eq_refl Hpc)
    as (H1 & H2 & H3 & H4 & H5 & _).
  now repeat split.
Qed.

Lemma drained_queue_last_event_wins_witness :
  let w := World true ∅
             [Event SDL_KEYDOWN SDL_SCANCODE_A; Event SDL_KEYUP SDL_SCANCODE_A;
              Event SDL_KEYDOWN SDL_SCANCODE_LEFT]
             0 0 0 CoreTest MainPoll in
  let w' := exec (replicate (length (queue w)) Main) w in
  queue w' = [] /\ main_at w' = MainPoll /\
  pins w' !! wiring BUTTON_A
    = last_level BUTTON_A (queue w) (pins w !! wiring BUTTON_A) /\
  running w' = running w && negb (existsb is_quit (queue w)) /\
  frames w' = frames w.
Proof.
  apply (drained_queue_last_event_wins
           (World true ∅
              [Event SDL_KEYDOWN SDL_SCANCODE_A; Event SDL_KEYUP SDL_SCANCODE_A;
               Event SDL_KEYDOWN SDL_SCANCODE_LEFT]
              0 0 0 CoreTest MainPoll) BUTTON_A).
  reflexivity.
Defined.

Lemma exec_step_keeps_running t w :
  keeps_running w -> keeps_running (exec_step w t).
Proof.
  intros (Hrun & Hq & Hcore & Hmain). unfold exec_step.
  destruct t; cbn [step].
  - unfold step_core. destruct (core_at w) eqn:Hc; try contradiction.
    + rewrite Hrun. unfold keeps_running. cbn. now repeat split.
    + unfold keeps_running. cbn. now repeat split.
  - unfold step_main.
    destruct Hmain as [Hm|[Hm|Hm]]; rewrite Hm.
    + rewrite Hrun. unfold keeps_running. cbn. repeat split; auto.
    + destruct (queue w) as [|event rest] eqn:Hqueue.
      * unfold keeps_running. cbn. rewrite Hqueue. repeat split; auto.
      * cbn [existsb] in Hq. apply orb_false_elim in Hq as [He Hrest].
        pose proof (dispatch_shape event (set_queue rest w))
          as (Hd1 & Hd2 & Hd3 & _).
        unfold keeps_running.
        rewrite dispatch_running, Hd1, Hd2, Hd3, He. cbn.
        rewrite Hrun, Hm. repeat split; auto.
    + unfold keeps_running. cbn. repeat split; auto.
Qed.

Lemma enqueue_keeps_running event w :
  is_quit event = false -> keeps_running w -> keeps_running (enqueue event w).
Proof.
  intros He (Hrun & Hq & Hcore & Hmain).
  unfold keeps_running, enqueue. cbn.
  rewrite existsb_app, Hq. cbn. rewrite He. now repeat split.
Qed.

(** X13. Only a quit event ends the program: as long as no quit event is
    pending when [main] enters its loop and none arrives afterwards, no
    interleaving of the two threads and of the arrivals of other events
    clears the flag, makes [run_core] return or takes [main] out of its
    loop, whatever keys are pressed. *)
Theorem no_quit_no_exit
    (p : gmap pin Z) (q : list SDL_Event) (acts : list actor) :
  existsb is_quit q = false ->
  existsb quit_arrives acts = false ->
  keeps_running (live_exec acts (boot p q)).
Proof.
  intros Hq.
  assert (Hboot : keeps_running (boot p q)).
  { unfold keeps_running, boot. cbn. repeat split; auto. }
  revert Hboot. generalize (boot p q) as w.
  induction acts as [|a acts IH]; intros w Hw Hacts; [exact Hw|].
  cbn [existsb] in Hacts. apply orb_false_elim in Hacts as [Ha Hrest].
  cbn [live_exec fold_left]. apply IH; [|exact Hrest].
  destruct a as [t|event]; cbn [live_step].
  - now apply exec_step_keeps_running.
  - now apply enqueue_keeps_running.
Qed.

Lemma no_quit_no_exit_witness :
  keeps_running
    (live_exec
       [Runs Main; Runs Core; Runs Main; Arrives (Event SDL_KEYUP SDL_SCANCODE_S);
        Runs Core; Runs Main; Runs Main; Runs Main; Runs Core; Runs Main]
       (boot ∅ [Event SDL_KEYDOWN SDL_SCANCODE_S; Event 0x200 0])).
Proof.
  apply (no_quit_no_exit ∅ [Event SDL_KEYDOWN SDL_SCANCODE_S; Event 0x200 0]
           [Runs Main; Runs Core; Runs Main;
            Arrives (Event SDL_KEYUP SDL_SCANCODE_S);
            Runs Core; Runs Main; Runs Main; Runs Main; Runs Core; Runs Main]).
  - reflexivity.
  - reflexivity.
Defined.

(** A quit event that arrives in a later iteration does end the run. *)
Example later_quit_ends_run :
  let w := live_exec
             ([Runs Main; Runs Main; Runs Main; Arrives (Event SDL_QUIT 0)]
              ++ map Runs [Main; Main; Main; Main; Core; Main; Main])
             (boot ∅ []) in
  running w = false /\ frames w = 2%nat /\
  core_at w = CoreExited /\ main_at w = MainExited.
Proof. vm_compute. now repeat split. Qed.

Lemma to_quit_bounds q :
  (to_quit q <= length q)%nat /\
  (existsb is_quit q = true -> (1 <= to_quit q)%nat).
Proof.
  induction q as [|event rest [IH1 IH2]]; cbn [to_quit length existsb].
  - split; [lia | discriminate].
  - destruct (is_quit event); cbn [orb]; split; lia.
Qed.

Lemma core_left_le w : (core_left w <= 2)%nat.
Proof. unfold core_left. destruct (core_at w); lia. Qed.

Lemma quitting_weaken L n m w :
  (n <= m)%nat -> quitting L n w -> quitting L m w.
Proof.
  intros Hnm [(H1 & H2 & H3 & H4 & H5 & H6)|HB]; [left | now right].
  repeat split; auto; lia.
Qed.

Lemma quitting_settled L n w w' :
  running w = false ->
  (frames w + frames_due w = 1)%nat ->
  main_at w = MainPoll \/ queue w = [] ->
  (shutdown_bound w <= L + 6)%nat ->
  settles w w' -> quitting L n w'.
Proof.
  intros Hrun Hf Hq Hb (S1 & S2 & S3 & S4 & S5 & S6). right.
  unfold shutdown_bound in *. repeat split; auto; lia.
Qed.

(** A step of either thread keeps the run on its way to the quit event; a
    step of [main] brings it one step closer. *)
Lemma exec_step_quitting L n t w :
  quitting L (S n) w ->
  quitting L (match t with Main => n | Core => S n end) (exec_step w t).
Proof.
  intros [(Hrun & Hf & Hq & Hm & Hlen & Hn)|(Hrun & Hf & Hq & Hb)].
  2:{ eapply quitting_settled; eauto. now apply exec_step_settles. }
  unfold exec_step. destruct t; cbn [step].
  - left. unfold step_core, main_to_quit in *.
    destruct (core_at w); cbn; rewrite ?Hrun; cbn; repeat split; auto.
  - unfold step_main, main_to_quit in *.
    destruct Hm as [Hm|Hm]; rewrite Hm in *.
    + left. rewrite Hrun. cbn. repeat split; auto. lia.
    + destruct (queue w) as [|event rest] eqn:Hqueue; [discriminate|].
      pose proof (dispatch_shape event (set_queue rest w))
        as (Hd1 & Hd2 & Hd3 & Hd4 & _).
      cbn [queue main_at core_at frames set_queue] in Hd1, Hd2, Hd3, Hd4.
      cbn [to_quit existsb length] in *.
      destruct (is_quit event) eqn:He.
      * right. rewrite dispatch_running, He. cbn [running set_queue].
        rewrite andb_false_r.
        unfold frames_due, shutdown_bound, main_left, core_left.
        rewrite Hd1, Hd2, Hd3, Hd4, Hm, Hf.
        repeat split; auto.
        destruct (core_at w); lia.
      * left. cbn [orb] in Hq. unfold main_to_quit.
        rewrite dispatch_running, He, Hd1, Hd2, Hd4, Hm.
        cbn [running set_queue]. rewrite Hrun.
        repeat split; auto; lia.
Qed.

Lemma round_quitting L round :
  forall n w,
    existsb is_main round = true ->
    quitting L (S n) w -> quitting L n (exec round w).
Proof.
  induction round as [|t round IH]; intros n w Hin Hw; [discriminate|].
  cbn [exec fold_left]. fold (exec round (exec_step w t)).
  pose proof (exec_step_quitting L n t w Hw) as Hstep.
  destruct t.
  - cbn [existsb is_main orb] in Hin. now apply IH.
  - clear IH Hin. revert Hstep. generalize (exec_step w Main) as w1.
    induction round as [|t round IH]; intros w1 Hw1; [exact Hw1|].
    cbn [exec fold_left]. apply IH.
    destruct n as [|n].
    + destruct Hw1 as [(H1 & H2 & H3 & H4 & H5 & H6)|(Hrun & Hf & Hq & Hb)].
      * exfalso. unfold main_to_quit in H6.
        pose proof (proj2 (to_quit_bounds (queue w1)) H3). lia.
      * eapply quitting_settled; eauto. now apply exec_step_settles.
    + eapply quitting_weaken; [|apply (exec_step_quitting L n t w1 Hw1)].
      destruct t; lia.
Qed.

Lemma rounds_quitting L rounds :
  forall w,
    forallb fair_round rounds = true ->
    quitting L (length rounds) w ->
    quitting L 0 (exec (concat rounds) w).
Proof.
  induction rounds as [|round rounds IH]; intros w Hfair Hw; [exact Hw|].
  cbn [forallb] in Hfair. apply andb_prop in Hfair as [Hr Hrs].
  unfold fair_round in Hr. apply andb_prop in Hr as [_ Hmain].
  cbn [concat]. rewrite exec_app. apply IH; [exact Hrs|].
  now apply round_quitting.
Qed.

(** X14. A quit event pending when [main] enters its loop ends the
    program after one frame: under every schedule that keeps giving both
    threads their turn, all pending events are handled, [draw_display] is
    called exactly once, and both [run_core] and [main] return. *)
Theorem pending_quit_draws_once_and_exits
    (p : gmap pin Z) (q : list SDL_Event) (rounds : list (list thread)) :
  existsb is_quit q = true ->
  forallb fair_round rounds = true ->
  (2 * length q + 8 <= length rounds)%nat ->
  let w' := exec (concat rounds) (boot p q) in
  running w' = false /\ queue w' = [] /\ frames w' = 1%nat /\
  core_at w' = CoreExited /\ main_at w' = MainExited.
Proof.
  intros Hq Hfair Hlen. cbv zeta.
  set (n1 := S (length q)).
  rewrite <- (take_drop n1 rounds) in Hfair |- *.
  rewrite forallb_app in Hfair. apply andb_prop in Hfair as [Hf1 Hf2].
  rewrite concat_app, exec_app.
  assert (Hstart : quitting (length q) (length (take n1 rounds)) (boot p q)).
  { left. unfold boot, main_to_quit. cbn.
    rewrite length_take. pose proof (proj1 (to_quit_bounds q)).
    repeat split; auto; lia. }
  pose proof (rounds_quitting _ _ _ Hf1 Hstart) as Hmid.
  set (w1 := exec (concat (take n1 rounds)) (boot p q)) in *.
  destruct Hmid as [(H1 & H2 & H3 & H4 & H5 & H6)|(Hrun & Hf & Hqueue & Hb)].
  { exfalso. unfold main_to_quit in H6.
    pose proof (proj2 (to_quit_bounds (queue w1)) H3). lia. }
  assert (Hzero : shutdown_bound (exec (concat (drop n1 rounds)) w1) = 0%nat).
  { apply rounds_finish; [exact Hrun | exact Hf2 |].
    rewrite length_drop. lia. }
  pose proof (exec_settles (concat (drop n1 rounds)) w1 Hrun)
    as (S1 & _ & _ & _ & S5 & S6).
  set (w2 := exec (concat (drop n1 rounds)) w1) in *.
  unfold shutdown_bound, core_left, main_left in Hzero.
  assert (Hc : core_at w2 = CoreExited)
    by (destruct (core_at w2); lia || reflexivity).
  assert (Hm : main_at w2 = MainExited)
    by (destruct (main_at w2); lia || reflexivity).
  unfold frames_due at 1 in S5. rewrite Hm in S5.
  split; [exact S1|]. split.
  { destruct (S6 Hqueue) as [H|H]; [congruence | exact H]. }
  split; [lia|]. split; [exact Hc | exact Hm].
Qed.

Lemma pending_quit_draws_once_and_exits_witness :
  let w' := exec (concat (replicate 12 [Core; Main]))
              (boot ∅ [Event SDL_KEYDOWN SDL_SCANCODE_UP; Event SDL_QUIT 0]) in
  running w' = false /\ queue w' = [] /\ frames w' = 1%nat /\
  core_at w' = CoreExited /\ main_at w' = MainExited.
Proof.
  apply (pending_quit_draws_once_and_exits ∅
           [Event SDL_KEYDOWN SDL_SCANCODE_UP; Event SDL_QUIT 0]
           (replicate 12 [Core; Main])).
  - reflexivity.
  - reflexivity.
  - vm_compute. lia.
Defined.

End EventLoopMore.

(** * Further properties of the start-up path *)

Section StartupMore.

Lemma main_with_path argv0 path rest h :
  main (argv0 :: path :: rest) h =
  match initialize path h with
  | (t, inl o) => (t, o)
  | (t, inr _) => (t, EventLoop)
  end.
Proof.
  unfold main. cbn [length lookup list_lookup].
  destruct (decide _) as [Hle|_]; [lia | reflexivity].
Qed.

Ltac start_up_cases h Hfreq :=
  rewrite !main_with_path; unfold initialize, load_firmware, host_ready;
  destruct h as [a b c d e f g freq];
  cbn [mcu_made sdl_up surface_made window_made renderer_made texture_made
       audio_opened have_freq host_good];
  destruct (strstr _ ".elf");
  destruct (bool_decide (audio_frequency = freq)) eqn:Hfreq;
  destruct a, b, c, d, e, f, g; vm_compute.

(** X15. [main] reaches its event loop exactly when every test of the
    start-up passes, the obtained sample rate being the requested 8000;
    otherwise it throws. The core thread is started only in the first case,
    so a failed start-up leaves no thread behind. *)
Theorem event_loop_iff_host_ready
    (argv0 path : string) (rest : list string) (h : host) :
  let r := main (argv0 :: path :: rest) h in
  (snd r = EventLoop <-> host_ready h = true) /\
  (host_ready h = false -> exists what, snd r = Throw what) /\
  existsb is_thread_start (fst r) = host_ready h.
Proof.
  cbv zeta. start_up_cases h Hfreq;
    (split; [split; (reflexivity || discriminate)|]);
    (split; [intros Hno; solve [discriminate Hno | now eexists] | reflexivity]).
Qed.

Lemma event_loop_iff_host_ready_witness :
  let r := main ["simarduboy"; "game.hex"]
             (Host true true true false true true true 8000) in
  (snd r = EventLoop
     <-> host_ready (Host true true true false true true true 8000) = true) /\
  (host_ready (Host true true true false true true true 8000) = false ->
   exists what, snd r = Throw what) /\
  existsb is_thread_start (fst r)
    = host_ready (Host true true true false true true true 8000).
Proof.
  apply (event_loop_iff_host_ready "simarduboy" "game.hex" []
           (Host true true true false true true true 8000)).
Defined.

(** X16. The start-up steps come in one fixed order and a failure only
    cuts them short: what [main] did before it threw is a prefix of what it
    does on a host where every test passes; nothing is undone or closed
    on failure. *)
Theorem failed_start_up_is_prefix
    (argv0 path : string) (rest : list string) (h : host) :
  fst (main (argv0 :: path :: rest) h)
    `prefix_of` fst (main (argv0 :: path :: rest) host_good).
Proof.
  start_up_cases h Hfreq; eexists; reflexivity.
Qed.

End StartupMore.
